(** * licitacoes-backend: history tracking and contract-date repair

    A shallow embedding of the three JavaScript sources of the repository:

    - [src/server.js]            the first version of the Express server
                                 (module [ServerJs]);
    - [src/unnamed/part_000]     the deployed version of the same server, which
                                 reads the [logHistory] flag (module [Deployed]);
    - [src/ajustar_historico.js] the one-shot repair script (module [Ajustar]).

    The spec calls the PUT handler [applyUpdate], the POST handler
    [createProcess] and the loop of the repair script [repairContractDates];
    it renders the field [fase] as "phase" and the literal ['Contratado'] as
    "Contracted".  The embedding keeps the names of the source.

    Typing.  A JavaScript object that the handlers read key by key is a
    record whose fields are [option]s: [None] is a missing key, which reads
    as [undefined].  Phases, sectors, responsibles and dates are strings; a
    [history] or [locationHistory] key, when present, holds an array of entry
    objects; a [location], once decoded, is an object; a numeric key holds
    text or a number.  The keys that no handler reads are kept in a
    [gmap string string].  An exception is a value of [result].  The
    built-ins of the runtime ([parseFloat], [JSON.parse], [Date]) are the
    members of the class [JSRuntime]; the clock is an argument. *)

From stdpp Require Import base option list strings gmap.
From Stdlib Require Import ZArith Ascii PrimFloat Uint63.


(** ** Exceptions *)

Inductive exn := TypeError | SyntaxError | RangeError.

Inductive result (A : Type) :=
  | Ok (a : A)
  | Throw (e : exn).
Arguments Ok {A} a.
Arguments Throw {A} e.

Global Instance result_ret : MRet result := fun A a => Ok a.
Global Instance result_bind : MBind result := fun A B f m =>
  match m with
  | Ok a => f a
  | Throw e => Throw e
  end.

(** ** Data model *)

(** A number-valued form field, before or after [parseFloat]. *)
Inductive numval :=
  | NumText (s : string)
  | Num (x : float).

(** The [logHistory] flag arrives as text or as a boolean. *)
Inductive flag :=
  | FlagText (s : string)
  | FlagBool (b : bool).

Module Location.
Record t := mk { sector : option string; responsible : option string }.
End Location.

Global Instance Location_eq_dec : EqDecision Location.t.
Proof. solve_decision. Defined.

(** A [location] field of a request body: serialized text or an object. *)
Inductive locval :=
  | LocText (s : string)
  | LocObj (l : Location.t).

Module HistoryEntry.
Record t := mk {
    fase : option string;
    startDate : string;
    endDate : option string          (* [None] is [null] *)
  }.
End HistoryEntry.

Module LocationEntry.
Record t := mk {
    sector : option string;
    responsible : option string;
    startDate : string;
    endDate : option string
  }.
End LocationEntry.

Module Attachment.
Record t := mk { filename : string; originalname : string; path : string }.
End Attachment.

(** [req.body]: every key is optional. *)
Module Body.
Record t := mk {
    id : option Z;
    fase : option string;
    location : option locval;
    value : option numval;
    purchasedValue : option numval;
    contractDate : option string;
    creationDate : option string;
    logHistory : option flag;
    attachments : option (list Attachment.t);
    history : option (list HistoryEntry.t);
    locationHistory : option (list LocationEntry.t);
    other : gmap string string
  }.
End Body.

(** A stored process. *)
Module Process.
Record t := mk {
    id : Z;
    fase : option string;
    location : option Location.t;
    value : option numval;
    purchasedValue : option numval;
    contractDate : option string;
    creationDate : option string;
    logHistory : option flag;
    attachments : option (list Attachment.t);
    history : option (list HistoryEntry.t);
    locationHistory : option (list LocationEntry.t);
    other : gmap string string
  }.

Definition set_history (h : option (list HistoryEntry.t)) (p : t) : t :=
  mk (id p) (fase p) (location p) (value p) (purchasedValue p)
     (contractDate p) (creationDate p) (logHistory p) (attachments p)
     h (locationHistory p) (other p).
End Process.

(** ** The runtime's built-ins *)

Class JSRuntime := {
  (** [parseFloat(s)] on text *)
  parseFloat_text : string → float;
  (** [JSON.parse(s)] of a serialized location, an object; [None] is a
      [SyntaxError].  Text that decodes to [null] or to a primitive is the
      matter of [AnyJSON] below. *)
  JSON_parse : string → option Location.t;
  (** [new Date(s).toISOString()]; [None] is the [RangeError] of an invalid date *)
  Date_toISOString : string → option string
}.

(** ** Truthiness *)

Definition truthy_str (s : option string) : bool :=
  match s with
  | Some s => negb (bool_decide (s = ""))
  | None => false
  end.

Definition truthy_float (x : float) : bool :=
  negb (PrimFloat.eqb x 0%float || PrimFloat.is_nan x).

Definition truthy_num (v : option numval) : bool :=
  match v with
  | Some (NumText s) => negb (bool_decide (s = ""))
  | Some (Num x) => truthy_float x
  | None => false
  end.

(** ** Arrays: the last element and its update in place *)

Definition lastIndex {A} (l : list A) : nat := length l - 1.

(** [l[l.length - 1]]: [None] ([undefined]) on the empty array. *)
Definition lastEntry {A} (l : list A) : option A := l !! lastIndex l.

(** ** src/ajustar_historico.js *)

Module Ajustar.
Section WithRuntime.
Context {rt : JSRuntime}.

Definition Contratado : string := "Contratado".

(** [new Date(processo.contractDate + 'T12:00:00Z').toISOString()] *)
Definition dataContratacaoISO (contractDate : string) : option string :=
  Date_toISOString (String.append contractDate "T12:00:00Z").

Definition set_startDate (d : string) (e : HistoryEntry.t) : HistoryEntry.t :=
  HistoryEntry.mk (HistoryEntry.fase e) d (HistoryEntry.endDate e).

(** The guard of lines 36-41. *)
Definition guard (processo : Process.t) : option (string * list HistoryEntry.t) :=
  if bool_decide (Process.fase processo = Some Contratado) then
    match Process.contractDate processo, Process.history processo with
    | Some cd, Some h =>
        if truthy_str (Some cd) && bool_decide (0 < length h)%nat
        then Some (cd, h) else None
    | _, _ => None
    end
  else None.

(** The callback of [data.processes.forEach] (lines 34-58): the process
    after the call and whether [processosAjustados] was incremented. *)
Definition callback (processo : Process.t) : result (Process.t * bool) :=
  match guard processo with
  | Some (cd, h) =>
      match dataContratacaoISO cd with
      | Some iso =>
          match lastEntry h with
          | Some ultimoHistorico =>
              if bool_decide (HistoryEntry.fase ultimoHistorico = Some Contratado)
                 && bool_decide (HistoryEntry.startDate ultimoHistorico ≠ iso)
              then Ok (Process.set_history
                         (Some (<[lastIndex h := set_startDate iso ultimoHistorico]> h))
                         processo, true)
              else Ok (processo, false)
          | None => Throw TypeError
          end
      | None => Throw RangeError
      end
  | None => Ok (processo, false)
  end.

(** How the run ends: the array in memory, and the counter or the
    exception that stopped the loop. *)
Inductive outcome :=
  | Returned (data : list Process.t) (processosAjustados : nat)
  | Threw (e : exn) (data : list Process.t).

Definition memory (o : outcome) : list Process.t :=
  match o with
  | Returned data _ => data
  | Threw _ data => data
  end.

(** [forEach], with the processes already visited and the counter. *)
Fixpoint forEach (visited : list Process.t) (processosAjustados : nat)
         (rest : list Process.t) : outcome :=
  match rest with
  | [] => Returned visited processosAjustados
  | processo :: rest' =>
      match callback processo with
      | Ok (processo', ajustado) =>
          forEach (visited ++ [processo'])
                  (if ajustado then S processosAjustados else processosAjustados)
                  rest'
      | Throw e => Threw e (visited ++ processo :: rest')
      end
  end.

(** Lines 31-58: the spec's [repairContractDates]. *)
Definition repairContractDates (processes : list Process.t) : outcome :=
  forEach [] 0 processes.

(** The whole script on the contents of [processos.json]: the file is
    rewritten only when the loop returns a positive counter. *)
Definition ajustarDatasDeContratacao (file : list Process.t) : list Process.t :=
  match repairContractDates file with
  | Returned data n => if bool_decide (0 < n)%nat then data else file
  | Threw _ _ => file
  end.

End WithRuntime.
End Ajustar.

(** ** What the two servers share *)

Section Shared.
Context {rt : JSRuntime}.

(** [parseFloat(v)]: text goes through the runtime's parser; a number is
    printed and parsed back to itself. *)
Definition parseFloat (v : numval) : float :=
  match v with
  | NumText s => parseFloat_text s
  | Num x => x
  end.

(** [if (typeof b.location === 'string') b.location = JSON.parse(b.location)],
    then the read of [b.location]. *)
Definition decodeLocation (l : option locval) : result (option Location.t) :=
  match l with
  | Some (LocText s) =>
      match JSON_parse s with
      | Some o => Ok (Some o)
      | None => Throw SyntaxError
      end
  | Some (LocObj o) => Ok (Some o)
  | None => Ok None
  end.

(** [req.files ? req.files.map(file => ({filename, originalname, path})) : []] *)
Definition uploaded (files : option (list Attachment.t)) : list Attachment.t :=
  default [] files.

Definition closeEntry (now : string) (e : HistoryEntry.t) : HistoryEntry.t :=
  HistoryEntry.mk (HistoryEntry.fase e) (HistoryEntry.startDate e) (Some now).

Definition closeLocation (now : string) (e : LocationEntry.t) : LocationEntry.t :=
  LocationEntry.mk (LocationEntry.sector e) (LocationEntry.responsible e)
                   (LocationEntry.startDate e) (Some now).

(** [const last = a[a.length - 1]; if (last) last.endDate = now;] *)
Definition closeLast {A} (close : A → A) (a : list A) : list A :=
  match lastEntry a with
  | Some last => <[lastIndex a := close last]> a
  | None => a
  end.

(** The phase block: close the last entry, push the new one. *)
Definition pushFase (now : string) (fase : option string)
           (history : list HistoryEntry.t) : list HistoryEntry.t :=
  closeLast (closeEntry now) history ++ [HistoryEntry.mk fase now None].

(** The location block: close the last entry, push the new one. *)
Definition pushLocation (now : string) (newLocation : Location.t)
           (locationHistory : list LocationEntry.t) : list LocationEntry.t :=
  closeLast (closeLocation now) locationHistory
  ++ [LocationEntry.mk (Location.sector newLocation)
                       (Location.responsible newLocation) now None].

(** One key of [{ ...existingProcess, ...updatedData }]. *)
Definition spread {A} (updated existing : option A) : option A :=
  match updated with
  | Some v => Some v
  | None => existing
  end.

(** Lines 181-187 of part_000 (183-188 of server.js): the merge.  The
    body is [updatedData] after its [value], [purchasedValue] and [location]
    keys were rewritten; [existingProcess] carries the histories after the
    two tracking blocks. *)
Definition merge (existingProcess : Process.t) (processId : Z)
           (updatedData : Body.t)
           (value purchasedValue : option numval)
           (location : option Location.t)
           (history : option (list HistoryEntry.t))
           (locationHistory : option (list LocationEntry.t))
           (newAttachments : list Attachment.t) : Process.t :=
  Process.mk
    processId
    (spread (Body.fase updatedData) (Process.fase existingProcess))
    (spread location (Process.location existingProcess))
    (spread value (Process.value existingProcess))
    (spread purchasedValue (Process.purchasedValue existingProcess))
    (spread (Body.contractDate updatedData) (Process.contractDate existingProcess))
    (spread (Body.creationDate updatedData) (Process.creationDate existingProcess))
    (spread (Body.logHistory updatedData) (Process.logHistory existingProcess))
    (Some (default [] (Process.attachments existingProcess) ++ newAttachments))
    (spread (Body.history updatedData) history)
    (spread (Body.locationHistory updatedData) locationHistory)
    (Body.other updatedData ∪ Process.other existingProcess).

(** [if (b.k) b.k = parseFloat(b.k)] *)
Definition parseIfTruthy (v : option numval) : option numval :=
  if truthy_num v then Num ∘ parseFloat <$> v else v.

End Shared.

(** ** src/unnamed/part_000 *)

Module Deployed.
Section WithRuntime.
Context {rt : JSRuntime}.

(** [parseFloat(b.k || 0)] *)
Definition parseOrZero (v : option numval) : float :=
  if truthy_num v then from_option parseFloat 0%float v else 0%float.

(** [app.post('/api/processes')], lines 86-118: the process built from the
    request, before it is pushed and written. *)
Definition createProcess (newProcess : Body.t) (files : option (list Attachment.t))
           (now : string) (Date_now : Z) : result Process.t :=
  let value := parseOrZero (Body.value newProcess) in
  let purchasedValue := parseOrZero (Body.purchasedValue newProcess) in
  location ← decodeLocation (Body.location newProcess);
  let attachments := uploaded files in
  let history := [HistoryEntry.mk (Body.fase newProcess) now None] in
  match location with
  | Some l =>
      Ok (Process.mk Date_now (Body.fase newProcess) (Some l)
            (Some (Num value)) (Some (Num purchasedValue))
            (Body.contractDate newProcess) (Some now)
            (Body.logHistory newProcess) (Some attachments)
            (Some history)
            (Some [LocationEntry.mk (Location.sector l) (Location.responsible l)
                                    now None])
            (Body.other newProcess))
  | None => Throw TypeError
  end.

(** The POST handler on the contents of [processos.json]: the file afterwards
    and the response. *)
Definition post (processes : list Process.t) (body : Body.t)
           (files : option (list Attachment.t)) (now : string) (Date_now : Z)
  : list Process.t * result Process.t :=
  match createProcess body files now Date_now with
  | Ok newProcess => (processes ++ [newProcess], Ok newProcess)
  | Throw e => (processes, Throw e)
  end.

(** Line 148. *)
Definition logHistory (updatedData : Body.t) : bool :=
  match Body.logHistory updatedData with
  | Some (FlagText s) => bool_decide (s = "true")
  | Some (FlagBool b) => b
  | None => false
  end.

(** Lines 149-153: [existingProcess.history] after the phase block. *)
Definition trackFase (existingProcess : Process.t) (updatedData : Body.t)
           (now : string) : list HistoryEntry.t :=
  let history := default [] (Process.history existingProcess) in
  if logHistory updatedData
     && truthy_str (Body.fase updatedData)
     && bool_decide (Body.fase updatedData ≠ Process.fase existingProcess)
  then pushFase now (Body.fase updatedData) history
  else history.

(** Lines 161-171: [existingProcess.locationHistory] after the location
    block.  [lastLocationEntry.sector] is read before the test
    [if (lastLocationEntry)]. *)
Definition trackLocation (existingProcess : Process.t) (updatedData : Body.t)
           (newLocation : option Location.t) (now : string)
  : result (list LocationEntry.t) :=
  let locationHistory := default [] (Process.locationHistory existingProcess) in
  let lastLocationEntry := lastEntry locationHistory in
  if logHistory updatedData then
    match newLocation with
    | Some nl =>
        match lastLocationEntry with
        | Some le =>
            if bool_decide (Location.sector nl ≠ LocationEntry.sector le)
               || bool_decide (Location.responsible nl ≠ LocationEntry.responsible le)
            then Ok (pushLocation now nl locationHistory)
            else Ok locationHistory
        | None => Throw TypeError
        end
    | None => Ok locationHistory
    end
  else Ok locationHistory.

(** [app.put('/api/processes/:id')], lines 136-187, on the process found. *)
Definition applyUpdate (existingProcess : Process.t) (processId : Z)
           (updatedData : Body.t) (files : option (list Attachment.t))
           (now : string) : result Process.t :=
  let value := parseIfTruthy (Body.value updatedData) in
  let purchasedValue := parseIfTruthy (Body.purchasedValue updatedData) in
  let history := trackFase existingProcess updatedData now in
  newLocation ← decodeLocation (Body.location updatedData);
  locationHistory ← trackLocation existingProcess updatedData newLocation now;
  Ok (merge existingProcess processId updatedData value purchasedValue
            newLocation (Some history) (Some locationHistory) (uploaded files)).

(** [processes.findIndex(p => p.id === processId)] *)
Definition findIndex (processId : Z) (processes : list Process.t) : option nat :=
  fst <$> list_find (λ p, Process.id p = processId) processes.

Inductive response :=
  | Json (p : Process.t)
  | NotFound
  | Failed (e : exn).

(** The PUT handler on the contents of [processos.json]. *)
Definition put (processes : list Process.t) (processId : Z) (body : Body.t)
           (files : option (list Attachment.t)) (now : string)
  : list Process.t * response :=
  match findIndex processId processes with
  | None => (processes, NotFound)
  | Some processIndex =>
      match processes !! processIndex with
      | Some existingProcess =>
          match applyUpdate existingProcess processId body files now with
          | Ok p => (<[processIndex := p]> processes, Json p)
          | Throw e => (processes, Failed e)
          end
      | None => (processes, NotFound)
      end
  end.

End WithRuntime.
End Deployed.

(** ** src/server.js *)

Module ServerJs.
Section WithRuntime.
Context {rt : JSRuntime}.

(** [parseFloat(newProcess.value)]: a missing key is printed as
    "undefined" and parses to NaN. *)
Definition parseValue (v : option numval) : float :=
  from_option parseFloat nan v.

(** [app.post('/api/processes')], lines 82-115. *)
Definition createProcess (newProcess : Body.t) (files : option (list Attachment.t))
           (now : string) (Date_now : Z) : result Process.t :=
  let value := parseValue (Body.value newProcess) in
  location ← decodeLocation (Body.location newProcess);
  let attachments := uploaded files in
  let history := [HistoryEntry.mk (Body.fase newProcess) now None] in
  match location with
  | Some l =>
      Ok (Process.mk Date_now (Body.fase newProcess) (Some l)
            (Some (Num value)) (Body.purchasedValue newProcess)
            (Body.contractDate newProcess) (Some now)
            (Body.logHistory newProcess) (Some attachments)
            (Some history)
            (Some [LocationEntry.mk (Location.sector l) (Location.responsible l)
                                    now None])
            (Body.other newProcess))
  | None => Throw TypeError
  end.

Definition post (processes : list Process.t) (body : Body.t)
           (files : option (list Attachment.t)) (now : string) (Date_now : Z)
  : list Process.t * result Process.t :=
  match createProcess body files now Date_now with
  | Ok newProcess => (processes ++ [newProcess], Ok newProcess)
  | Throw e => (processes, Throw e)
  end.

(** Lines 143-148: [existingProcess.history] after the phase block; the
    key is created only inside the block. *)
Definition trackFase (existingProcess : Process.t) (updatedData : Body.t)
           (now : string) : option (list HistoryEntry.t) :=
  if truthy_str (Body.fase updatedData)
     && bool_decide (Body.fase updatedData ≠ Process.fase existingProcess)
  then Some (pushFase now (Body.fase updatedData)
                      (default [] (Process.history existingProcess)))
  else Process.history existingProcess.

(** Lines 156-172: [existingProcess.locationHistory] after the location
    block.  The test reads [existingProcess.location.sector]. *)
Definition trackLocation (existingProcess : Process.t)
           (newLocation : option Location.t) (now : string)
  : result (option (list LocationEntry.t)) :=
  match newLocation with
  | Some nl =>
      match Process.location existingProcess with
      | Some l =>
          if bool_decide (Location.sector nl ≠ Location.sector l)
             || bool_decide (Location.responsible nl ≠ Location.responsible l)
          then Ok (Some (pushLocation now nl
                           (default [] (Process.locationHistory existingProcess))))
          else Ok (Process.locationHistory existingProcess)
      | None => Throw TypeError
      end
  | None => Ok (Process.locationHistory existingProcess)
  end.

(** [app.put('/api/processes/:id')], lines 139-188, on the process found.
    The [logHistory] key of the body is not read. *)
Definition applyUpdate (existingProcess : Process.t) (processId : Z)
           (updatedData : Body.t) (files : option (list Attachment.t))
           (now : string) : result Process.t :=
  let history := trackFase existingProcess updatedData now in
  newLocation ← decodeLocation (Body.location updatedData);
  locationHistory ← trackLocation existingProcess newLocation now;
  let value := parseIfTruthy (Body.value updatedData) in
  Ok (merge existingProcess processId updatedData value
            (Body.purchasedValue updatedData)
            newLocation history locationHistory (uploaded files)).

End WithRuntime.
End ServerJs.

(** ** A reference runtime

    The members below fix the built-ins on the inputs every engine treats
    alike: decimal digits for [parseFloat], the two serialized locations
    used in the examples for [JSON.parse], and the calendar form
    YYYY-MM-DD followed by the midday anchor for [Date]. *)

Definition isDigit (c : ascii) : bool :=
  let n := Ascii.nat_of_ascii c in (48 <=? n)%nat && (n <=? 57)%nat.

Fixpoint digitsValue (acc : Z) (s : string) : option Z :=
  match s with
  | EmptyString => Some acc
  | String c s' =>
      if isDigit c
      then digitsValue (10 * acc + Z.of_nat (Ascii.nat_of_ascii c - 48)) s'
      else None
  end.

(** Unsigned decimal integers; everything else is NaN. *)
Definition ref_parseFloat (s : string) : float :=
  match s with
  | EmptyString => nan
  | _ => match digitsValue 0 s with
         | Some z => PrimFloat.of_uint63 (Uint63.of_Z z)
         | None => nan
         end
  end.

(** The double quote. *)
Definition dq : ascii := ascii_of_nat 34.

Definition quoted (s : string) : string := String dq (s ++ String dq "").

Fixpoint stripPrefix (p s : string) : option string :=
  match p, s with
  | EmptyString, _ => Some s
  | String a p', String b s' => if bool_decide (a = b) then stripPrefix p' s' else None
  | String _ _, EmptyString => None
  end.

(** The characters up to the next double quote, and what follows it;
    escapes are not accepted. *)
Fixpoint untilQuote (s : string) : option (string * string) :=
  match s with
  | EmptyString => None
  | String c s' =>
      if bool_decide (c = dq) then Some ("", s')
      else if bool_decide (c = ascii_of_nat 92) then None
      else '(w, r) ← untilQuote s'; Some (String c w, r)
  end.

(** Text of the shape that [JSON.stringify({sector, responsible})] writes. *)
Definition ref_JSON_parse (s : string) : option Location.t :=
  s1 ← stripPrefix ("{" ++ quoted "sector" ++ ":" ++ String dq "") s;
  '(sector, s2) ← untilQuote s1;
  s3 ← stripPrefix ("," ++ quoted "responsible" ++ ":" ++ String dq "") s2;
  '(responsible, s4) ← untilQuote s3;
  if bool_decide (s4 = "}")
  then Some (Location.mk (Some sector) (Some responsible))
  else None.

Definition twoDigits (a b : ascii) : option nat :=
  if isDigit a && isDigit b
  then Some (10 * (nat_of_ascii a - 48) + (nat_of_ascii b - 48))%nat
  else None.

Definition isLeap (y : nat) : bool :=
  ((y mod 4 =? 0) && negb (y mod 100 =? 0) || (y mod 400 =? 0))%nat.

Definition daysInMonth (y m : nat) : nat :=
  match m with
  | 2 => if isLeap y then 29 else 28
  | 4 | 6 | 9 | 11 => 30
  | _ => 31
  end.

(** YYYY-MM-DD of a calendar day that exists, followed by T12:00:00Z. *)
Definition ref_Date_toISOString (s : string) : option string :=
  match s with
  | String y1 (String y2 (String y3 (String y4 (String h1
      (String m1 (String m2 (String h2 (String d1 (String d2 rest))))))))) =>
      hi ← twoDigits y1 y2;
      lo ← twoDigits y3 y4;
      m ← twoDigits m1 m2;
      d ← twoDigits d1 d2;
      if bool_decide (h1 = "-"%char) && bool_decide (h2 = "-"%char)
         && bool_decide (rest = "T12:00:00Z")
         && (1 <=? m)%nat && (m <=? 12)%nat
         && (1 <=? d)%nat && (d <=? daysInMonth (100 * hi + lo) m)%nat
      then Some (String.append (String.substring 0 10 s) "T12:00:00.000Z")
      else None
  | _ => None
  end.

Global Instance ref_runtime : JSRuntime := {|
  parseFloat_text := ref_parseFloat;
  JSON_parse := ref_JSON_parse;
  Date_toISOString := ref_Date_toISOString
|}.

(** ** Example data *)

Definition noBody : Body.t :=
  Body.mk None None None None None None None None None None None ∅.

(** A process in the phase "Contratado" whose history entry starts the evening
    before the contract date. *)
Definition contratado : Process.t :=
  Process.mk 1 (Some "Contratado") (Some (Location.mk (Some "A") (Some "X")))
    (Some (Num 100)) None (Some "2024-03-15") (Some "2024-03-01T09:00:00.000Z")
    None (Some [])
    (Some [HistoryEntry.mk (Some "Planejamento") "2024-03-01T09:00:00.000Z"
                           (Some "2024-03-14T23:00:00.000Z");
           HistoryEntry.mk (Some "Contratado") "2024-03-14T23:00:00.000Z" None])
    (Some [LocationEntry.mk (Some "A") (Some "X") "2024-03-01T09:00:00.000Z" None])
    ∅.

(** The same process with a contract date that is no calendar date. *)
Definition semData : Process.t :=
  Process.mk 2 (Some "Contratado") (Some (Location.mk (Some "A") (Some "X")))
    None None (Some "15/03/2024") None None None
    (Some [HistoryEntry.mk (Some "Contratado") "2024-03-14T23:00:00.000Z" None])
    None ∅.

(** A body that carries the [logHistory] flag and nothing else. *)
Definition comLog (b : bool) : Body.t :=
  Body.mk None None None None None None None (Some (FlagBool b)) None None None ∅.

(** A body that changes the phase. *)
Definition novaFase (fase : string) (b : bool) : Body.t :=
  Body.mk None (Some fase) None None None None None (Some (FlagBool b))
          None None None ∅.

(** A body that brings a location object. *)
Definition novaLocation (sector responsible : string) (b : bool) : Body.t :=
  Body.mk None None (Some (LocObj (Location.mk (Some sector) (Some responsible))))
          None None None None (Some (FlagBool b)) None None None ∅.

(** A body that brings an empty phase history of its own. *)
Definition semHistorico (b : bool) : Body.t :=
  Body.mk None None None None None None None (Some (FlagBool b)) None
          (Some []) None ∅.

(** A process whose last phase interval is closed. *)
Definition encerrado : Process.t :=
  Process.mk 3 (Some "Encerrado") (Some (Location.mk (Some "A") (Some "X")))
    (Some (Num 100)) None None (Some "2024-03-01T09:00:00.000Z") None (Some [])
    (Some [HistoryEntry.mk (Some "Planejamento") "2024-03-01T09:00:00.000Z"
                           (Some "2024-03-14T23:00:00.000Z");
           HistoryEntry.mk (Some "Encerrado") "2024-03-14T23:00:00.000Z"
                           (Some "2024-04-01T10:00:00.000Z")])
    (Some [LocationEntry.mk (Some "A") (Some "X") "2024-03-01T09:00:00.000Z" None])
    ∅.

(** A record from before locations were tracked. *)
Definition legado : Process.t :=
  Process.mk 7 (Some "Planejamento") None None None None None None None
    (Some [HistoryEntry.mk (Some "Planejamento") "2023-01-10T09:00:00.000Z" None])
    None ∅.

(** ** The repair pass in the words of the spec *)

Section RepairSpec.
Context {rt : JSRuntime}.

(** The canonical timestamp of a process: its [contractDate] anchored to
    midday UTC, in ISO form; [None] when there is no such date. *)
Definition canonicalTimestamp (p : Process.t) : option string :=
  Process.contractDate p ≫= Ajustar.dataContratacaoISO.

(** The five conditions under which the pass corrects a process. *)
Definition qualifies (p : Process.t) : Prop :=
  Process.fase p = Some Ajustar.Contratado
  ∧ truthy_str (Process.contractDate p) = true
  ∧ match Process.history p ≫= last with
    | Some e =>
        HistoryEntry.fase e = Some Ajustar.Contratado
        ∧ Some (HistoryEntry.startDate e) ≠ canonicalTimestamp p
    | None => False
    end.

Global Instance qualifies_dec p : Decision (qualifies p).
Proof. unfold qualifies. destruct (Process.history p ≫= last); apply _. Defined.

(** The last entry of a phase history with its [startDate] replaced. *)
Definition overwriteStart (c : string) (h : list HistoryEntry.t) : list HistoryEntry.t :=
  match last h with
  | Some e => removelast h ++ [Ajustar.set_startDate c e]
  | None => h
  end.

(** What the pass makes of one process. *)
Definition repaired (p : Process.t) : Process.t :=
  match decide (qualifies p), canonicalTimestamp p with
  | left _, Some c => Process.set_history (overwriteStart c <$> Process.history p) p
  | _, _ => p
  end.

(** The process has a contract date that the runtime can anchor, whenever
    the guard of the callback lets it through. *)
Definition anchored (p : Process.t) : Prop :=
  ∀ cd h, Ajustar.guard p = Some (cd, h) → is_Some (Ajustar.dataContratacaoISO cd).

(** Two processes that differ at most in the [startDate] of the last entry
    of the phase history. *)
Definition frame (p p' : Process.t) : Prop :=
  p' = Process.set_history (Process.history p') p
  ∧ (Process.history p' = Process.history p
     ∨ qualifies p
       ∧ ∃ pre e c, Process.history p = Some (pre ++ [e])
                    ∧ Process.history p' = Some (pre ++ [Ajustar.set_startDate c e])).

End RepairSpec.

(** ** The history invariants in the words of the spec *)

Section HistorySpec.
Context {E : Type} (startOf : E → string) (endOf : E → option string).

(** An entry is open when its [endDate] is [null]. *)
Definition isOpen (e : E) : bool := bool_decide (endOf e = None).

Definition openCount (l : list E) : nat := length (filter (λ e, isOpen e = true) l).

(** Exactly one entry is open, and it is the last one. *)
Definition oneOpenLast (l : list E) : Prop :=
  openCount l = 1%nat ∧ ∃ e, last l = Some e ∧ endOf e = None.

(** Invariant 3: a closed interval does not end before it starts.
    Timestamps in ISO form are ordered as strings. *)
Definition closedInterval (e : E) : bool :=
  match endOf e with
  | Some d => String.leb (startOf e) d
  | None => false
  end.

(** Every entry but the last is a closed interval; with this, at most one
    entry is open, and an open entry is the last one. *)
Definition intervals (l : list E) : bool := forallb closedInterval (removelast l).

(** The sequence is ordered by [startDate]. *)
Fixpoint ascending (l : list E) : bool :=
  match l with
  | a :: (b :: _) as l' => String.leb (startOf a) (startOf b) && ascending l'
  | _ => true
  end.

(** One call seen from a history: nothing is removed or reordered, and an
    entry that was there is still there with the same fields, except that the
    [endDate] of the entry that was last may have been set. *)
Definition extended (sameFields : E → E → Prop) (h h' : list E) : Prop :=
  length h ≤ length h'
  ∧ ∀ i e, h !! i = Some e →
      ∃ e', h' !! i = Some e'
            ∧ startOf e' = startOf e ∧ sameFields e e'
            ∧ (endOf e' = endOf e ∨ i = lastIndex h).

End HistorySpec.

Definition sameFase (e e' : HistoryEntry.t) : Prop :=
  HistoryEntry.fase e' = HistoryEntry.fase e.

Definition sameLocation (e e' : LocationEntry.t) : Prop :=
  LocationEntry.sector e' = LocationEntry.sector e
  ∧ LocationEntry.responsible e' = LocationEntry.responsible e.

(** The phase history and the location history as sequences: a missing key
    is the empty sequence. *)
Definition historyOf (p : Process.t) : list HistoryEntry.t :=
  default [] (Process.history p).

Definition locationHistoryOf (p : Process.t) : list LocationEntry.t :=
  default [] (Process.locationHistory p).

(** The data model: both histories are ordered by [startDate], and
    invariants 1 to 3 hold (neither history is empty; the last entries agree
    with the current phase and location; every entry but the last is closed). *)
Definition wellFormed (p : Process.t) : bool :=
  match last (historyOf p), last (locationHistoryOf p) with
  | Some e, Some le =>
      bool_decide (HistoryEntry.fase e = Process.fase p)
      && bool_decide (Process.location p
                      = Some (Location.mk (LocationEntry.sector le)
                                          (LocationEntry.responsible le)))
      && ascending HistoryEntry.startDate (historyOf p)
      && ascending LocationEntry.startDate (locationHistoryOf p)
      && intervals HistoryEntry.startDate HistoryEntry.endDate (historyOf p)
      && intervals LocationEntry.startDate LocationEntry.endDate (locationHistoryOf p)
  | _, _ => false
  end.

(** Both histories end in an open entry, as [createProcess] seeds them. *)
Definition openEnded (p : Process.t) : bool :=
  match last (historyOf p), last (locationHistoryOf p) with
  | Some e, Some le =>
      isOpen HistoryEntry.endDate e && isOpen LocationEntry.endDate le
  | _, _ => false
  end.

(** The request body brings no history of its own. *)
Definition noHistoryKeys (b : Body.t) : Prop :=
  Body.history b = None ∧ Body.locationHistory b = None.

(** The two ways in which a numeric key is missing or empty. *)
Definition missingOrEmpty (v : option numval) : Prop :=
  v = None ∨ v = Some (NumText "").

(** ** Sequences of calls *)

Module Call.
Record t := mk {
    processId : Z;
    body : Body.t;
    files : option (list Attachment.t);
    now : string
  }.
End Call.

Section Calls.
Context {rt : JSRuntime}.

(** One PUT on the stored process: a call that throws stores nothing. *)
Definition stored (p : Process.t) (c : Call.t) : Process.t :=
  match Deployed.applyUpdate p (Call.processId c) (Call.body c) (Call.files c)
                             (Call.now c) with
  | Ok p' => p'
  | Throw _ => p
  end.

(** The states of the stored process along a sequence of calls, the
    first being the one it starts from. *)
Fixpoint states (p : Process.t) (calls : list Call.t) : list Process.t :=
  match calls with
  | [] => [p]
  | c :: calls' => p :: states (stored p c) calls'
  end.

End Calls.

(** ** The routes on the file and on the upload directory

    What [readData] hands to a route is the parsed file: an array at the
    root, as part_000 writes it, or an object with an optional [processes]
    key, as server.js writes it.  The upload directory is the set of the
    paths that exist. *)

Inductive document (A : Type) :=
  | DocArray (items : list A)
  | DocObject (processes : option (list A)).
Arguments DocArray {A} items.
Arguments DocObject {A} processes.

(** The two 404 messages. *)
Inductive notFound := NenhumProcessoEncontrado | ProcessoNaoEncontrado.

Inductive reply :=
  | Listed (processes : list Process.t)
  | Created (newProcess : Process.t)
  | Updated (p : Process.t)
  | NoContent
  | Missing (message : notFound)
  | Raised (e : exn).

(** [processes.find(p => p.id === processId)] *)
Definition find (processId : Z) (processes : list Process.t) : option Process.t :=
  snd <$> list_find (λ p, Process.id p = processId) processes.

(** [if (fs.existsSync(file.path)) fs.unlinkSync(file.path)] *)
Definition unlink (disk : gset string) (file : Attachment.t) : gset string :=
  if bool_decide (Attachment.path file ∈ disk)
  then disk ∖ {[Attachment.path file]}
  else disk.

(** [if (processToDelete && processToDelete.attachments)
       processToDelete.attachments.forEach(...)] *)
Definition unlinkAttachments (disk : gset string)
           (processToDelete : option Process.t) : gset string :=
  match processToDelete with
  | Some p =>
      match Process.attachments p with
      | Some files => foldl unlink disk files
      | None => disk
      end
  | None => disk
  end.

(** [processes.filter(p => p.id !== processId)] *)
Definition others (processId : Z) (processes : list Process.t) : list Process.t :=
  filter (λ p, Process.id p ≠ processId) processes.

(** The DELETE handler once it holds the array: the array to write (if any),
    the upload directory afterwards, and the reply. *)
Definition deleteFrom (processes : list Process.t) (disk : gset string)
           (processId : Z) : option (list Process.t) * gset string * reply :=
  let processToDelete := find processId processes in
  let disk' := unlinkAttachments disk processToDelete in
  let updatedProcesses := others processId processes in
  if bool_decide (length processes = length updatedProcesses)
  then (None, disk', Missing ProcessoNaoEncontrado)
  else (Some updatedProcesses, disk', NoContent).

(** *** src/unnamed/part_000: every route uses the parsed file as an array *)

Module DeployedRoutes.
Section WithRuntime.
Context {rt : JSRuntime}.

(** [app.get('/api/plan')] and [app.get('/api/processes')]:
    [Array.isArray(data) ? data : []] *)
Definition get {A} (data : document A) : list A :=
  match data with
  | DocArray items => items
  | DocObject _ => []
  end.

(** [app.post('/api/processes')]: [processes.push] is no function of an
    object. *)
Definition post (data : document Process.t) (body : Body.t)
           (files : option (list Attachment.t)) (now : string) (Date_now : Z)
  : document Process.t * reply :=
  match Deployed.createProcess body files now Date_now with
  | Ok newProcess =>
      match data with
      | DocArray processes => (DocArray (processes ++ [newProcess]), Created newProcess)
      | DocObject _ => (data, Raised TypeError)
      end
  | Throw e => (data, Raised e)
  end.

(** [app.put('/api/processes/:id')]: [processes.findIndex] is no function
    of an object. *)
Definition put (data : document Process.t) (processId : Z) (body : Body.t)
           (files : option (list Attachment.t)) (now : string)
  : document Process.t * reply :=
  match data with
  | DocArray processes =>
      match Deployed.put processes processId body files now with
      | (processes', Deployed.Json p) => (DocArray processes', Updated p)
      | (_, Deployed.NotFound) => (data, Missing ProcessoNaoEncontrado)
      | (_, Deployed.Failed e) => (data, Raised e)
      end
  | DocObject _ => (data, Raised TypeError)
  end.

(** [app.delete('/api/processes/:id')]: [processes.find] is no function of
    an object. *)
Definition delete (data : document Process.t) (disk : gset string) (processId : Z)
  : document Process.t * gset string * reply :=
  match data with
  | DocArray processes =>
      match deleteFrom processes disk processId with
      | (Some updatedProcesses, disk', r) => (DocArray updatedProcesses, disk', r)
      | (None, disk', r) => (data, disk', r)
      end
  | DocObject _ => (data, disk, Raised TypeError)
  end.

End WithRuntime.
End DeployedRoutes.

(** *** src/server.js: every route uses the [processes] key of the parsed file *)

Module ServerJsRoutes.
Section WithRuntime.
Context {rt : JSRuntime}.

(** [data.processes]: an array has no such key. *)
Definition processesOf {A} (data : document A) : option (list A) :=
  match data with
  | DocArray _ => None
  | DocObject processes => processes
  end.

(** [app.get('/api/plan')] and [app.get('/api/processes')]:
    [data.processes || []] *)
Definition get {A} (data : document A) : list A :=
  default [] (processesOf data).

(** [app.post('/api/processes')].  On an array at the root the new key
    [processes] is set on the array object, and [JSON.stringify] writes the
    elements of an array only. *)
Definition post (data : document Process.t) (body : Body.t)
           (files : option (list Attachment.t)) (now : string) (Date_now : Z)
  : document Process.t * reply :=
  match ServerJs.createProcess body files now Date_now with
  | Ok newProcess =>
      match data with
      | DocObject processes =>
          (DocObject (Some (default [] processes ++ [newProcess])), Created newProcess)
      | DocArray items => (DocArray items, Created newProcess)
      end
  | Throw e => (data, Raised e)
  end.

(** [app.put('/api/processes/:id')] *)
Definition put (data : document Process.t) (processId : Z) (body : Body.t)
           (files : option (list Attachment.t)) (now : string)
  : document Process.t * reply :=
  match processesOf data with
  | None => (data, Missing NenhumProcessoEncontrado)
  | Some processes =>
      match Deployed.findIndex processId processes with
      | None => (data, Missing ProcessoNaoEncontrado)
      | Some processIndex =>
          match processes !! processIndex with
          | Some existingProcess =>
              match ServerJs.applyUpdate existingProcess processId body files now with
              | Ok p => (DocObject (Some (<[processIndex := p]> processes)), Updated p)
              | Throw e => (data, Raised e)
              end
          | None => (data, Missing ProcessoNaoEncontrado)
          end
      end
  end.

(** [app.delete('/api/processes/:id')] *)
Definition delete (data : document Process.t) (disk : gset string) (processId : Z)
  : document Process.t * gset string * reply :=
  match processesOf data with
  | None => (data, disk, Missing NenhumProcessoEncontrado)
  | Some processes =>
      match deleteFrom processes disk processId with
      | (Some updatedProcesses, disk', r) => (DocObject (Some updatedProcesses), disk', r)
      | (None, disk', r) => (data, disk', r)
      end
  end.

End WithRuntime.
End ServerJsRoutes.

(** *** src/ajustar_historico.js on the parsed file *)

Section AjustarDocument.
Context {rt : JSRuntime}.

(** Lines 26-72: the script returns at once unless [data.processes] is an
    array that is not empty; otherwise it runs the loop and writes [data]
    back when the counter is positive. *)
Definition ajustarDocumento (data : document Process.t) : document Process.t :=
  match data with
  | DocObject (Some processes) =>
      if bool_decide (length processes = 0%nat) then data
      else DocObject (Some (Ajustar.ajustarDatasDeContratacao processes))
  | _ => data
  end.

End AjustarDocument.

(** A body for a new process. *)
Definition draft : Body.t :=
  Body.mk None (Some "Draft") (Some (LocObj (Location.mk (Some "A") (Some "X"))))
          (Some (NumText "1500")) None None None None None None None ∅.

(** ** Sequences of requests *)

Inductive request :=
  | GetProcesses
  | PostProcess (body : Body.t) (files : option (list Attachment.t))
                (now : string) (Date_now : Z)
  | PutProcess (processId : Z) (body : Body.t) (files : option (list Attachment.t))
               (now : string)
  | DeleteProcess (processId : Z).

Section Serve.
Context {rt : JSRuntime}.

(** [upload.array('files')] runs before the handler of POST and PUT:
    the files of the request are in the upload directory when it starts. *)
Definition uploadsOf (files : option (list Attachment.t)) : gset string :=
  list_to_set (Attachment.path <$> default [] files).

(** One request served by part_000: the file and the upload directory
    afterwards, and the reply. *)
Definition serveDeployed (state : document Process.t * gset string) (r : request)
  : document Process.t * gset string * reply :=
  match r with
  | GetProcesses => (state, Listed (DeployedRoutes.get state.1))
  | PostProcess body files now Date_now =>
      let '(data, reply) := DeployedRoutes.post state.1 body files now Date_now in
      (data, state.2 ∪ uploadsOf files, reply)
  | PutProcess processId body files now =>
      let '(data, reply) := DeployedRoutes.put state.1 processId body files now in
      (data, state.2 ∪ uploadsOf files, reply)
  | DeleteProcess processId => DeployedRoutes.delete state.1 state.2 processId
  end.

(** One request served by server.js. *)
Definition serveServerJs (state : document Process.t * gset string) (r : request)
  : document Process.t * gset string * reply :=
  match r with
  | GetProcesses => (state, Listed (ServerJsRoutes.get state.1))
  | PostProcess body files now Date_now =>
      let '(data, reply) := ServerJsRoutes.post state.1 body files now Date_now in
      (data, state.2 ∪ uploadsOf files, reply)
  | PutProcess processId body files now =>
      let '(data, reply) := ServerJsRoutes.put state.1 processId body files now in
      (data, state.2 ∪ uploadsOf files, reply)
  | DeleteProcess processId => ServerJsRoutes.delete state.1 state.2 processId
  end.

(** The file and the upload directory after a sequence of requests. *)
Definition after (serve : document Process.t * gset string → request
                          → document Process.t * gset string * reply)
           (state : document Process.t * gset string) (requests : list request)
  : document Process.t * gset string :=
  foldl (λ st r, (serve st r).1) state requests.

End Serve.

(** The paths of the attachments of a process. *)
Definition pathsOf (p : Process.t) : gset string :=
  list_to_set (Attachment.path <$> default [] (Process.attachments p)).

(** ** More of the data model in the words of the spec *)

(** Every entry but the last is closed (whatever the order of its dates),
    and the last one is open. *)
Definition oneOpen {E} (endOf : E → option string) (l : list E) : Prop :=
  ∃ pre e, l = pre ++ [e] ∧ endOf e = None ∧ Forall (λ x, endOf x ≠ None) pre.

(** The clock of a call is not behind the start of the last intervals. *)
Definition clockAhead (p : Process.t) (now : string) : bool :=
  match last (historyOf p), last (locationHistoryOf p) with
  | Some e, Some le =>
      String.leb (HistoryEntry.startDate e) now
      && String.leb (LocationEntry.startDate le) now
  | _, _ => false
  end.

(** ** The conditions of the repair, spelled out

    The five conditions and the canonical timestamp, written with the
    literals of the script and the [Date] of the runtime only. *)

Section RepairConditions.
Context {rt : JSRuntime}.

(** [contractDate], anchored at midday UTC, is a date that [Date] can
    render: [c] is its ISO form. *)
Definition anchoredAt (contractDate c : string) : Prop :=
  Date_toISOString (String.append contractDate "T12:00:00Z") = Some c.

(** The process is in the phase "Contratado", has a contract date that is
    present and anchors at [c], and a phase history [pre ++ [e]] whose last
    entry [e] is in the phase "Contratado" and does not start at [c]. *)
Definition needsCorrection (p : Process.t) (pre : list HistoryEntry.t)
           (e : HistoryEntry.t) (c : string) : Prop :=
  Process.fase p = Some "Contratado"
  ∧ (∃ contractDate, Process.contractDate p = Some contractDate
                     ∧ contractDate ≠ "" ∧ anchoredAt contractDate c)
  ∧ Process.history p = Some (pre ++ [e])
  ∧ HistoryEntry.fase e = Some "Contratado"
  ∧ HistoryEntry.startDate e ≠ c.

(** A process in the phase "Contratado" with a contract date and a phase
    history that is not empty has a contract date that [Date] can render. *)
Definition anchorable (p : Process.t) : Prop :=
  ∀ contractDate,
    Process.fase p = Some "Contratado" →
    Process.contractDate p = Some contractDate → contractDate ≠ "" →
    (∃ h, Process.history p = Some h ∧ h ≠ []) →
    ∃ c, anchoredAt contractDate c.

End RepairConditions.

(** ** A location text that decodes to any JSON value

    [JSON.parse] returns more than objects.  To the PUT handlers a decoded
    location is one of three things: [null]; a number, a string or a boolean,
    truthy or falsy, of which every key reads [undefined]; or an object
    (an array is one) with its keys.  The handlers below are the POST and PUT
    handlers again, from the decoding on, over all three; where the text
    decodes to an object or not at all they are the handlers of [Deployed]
    and [ServerJs] (lemmas [createProcess_of_objects] and
    [applyUpdate_of_objects]). *)

Module AnyJSON.

Inductive value :=
  | Null
  | Primitive (truthy : bool)
  | Object (l : Location.t).

(** [JSON.parse(s)]; [None] is a [SyntaxError]. *)
Class Runtime := { parse : string → option value }.

Section WithRuntime.
Context {rt : JSRuntime} {jr : Runtime}.

(** [if (typeof b.location === 'string') b.location = JSON.parse(b.location)],
    then the read of [b.location]. *)
Definition decodeLocation (l : option locval) : result (option value) :=
  match l with
  | Some (LocText s) =>
      match parse s with
      | Some v => Ok (Some v)
      | None => Throw SyntaxError
      end
  | Some (LocObj o) => Ok (Some (Object o))
  | None => Ok None
  end.

(** [newLocation && ...]: when [newLocation] is truthy, what
    [newLocation.sector] and [newLocation.responsible] read. *)
Definition truthyLocation (newLocation : option value) : option Location.t :=
  match newLocation with
  | Some (Object l) => Some l
  | Some (Primitive true) => Some (Location.mk None None)
  | Some (Primitive false) | Some Null | None => None
  end.

(** What a later [existingProcess.location.sector] finds of a stored
    value: [None] where that read throws. *)
Definition readable (v : value) : option Location.t :=
  match v with
  | Null => None
  | Primitive _ => Some (Location.mk None None)
  | Object l => Some l
  end.

(** The [location] key of [{ ...existingProcess, ...updatedData }]. *)
Definition mergeLocation (newLocation : option value)
           (existing : option Location.t) : option Location.t :=
  match newLocation with
  | Some v => readable v
  | None => existing
  end.

Definition withLocation (location : option Location.t) (p : Process.t) : Process.t :=
  Process.mk (Process.id p) (Process.fase p) location (Process.value p)
             (Process.purchasedValue p) (Process.contractDate p)
             (Process.creationDate p) (Process.logHistory p)
             (Process.attachments p) (Process.history p)
             (Process.locationHistory p) (Process.other p).

(** [app.post('/api/processes')] of part_000, lines 86-118.  The read of
    [newProcess.location.sector] throws on a missing key and on [null]; of a
    primitive, truthy or not, it gives [undefined]. *)
Definition deployed_createProcess (newProcess : Body.t)
           (files : option (list Attachment.t))
           (now : string) (Date_now : Z) : result Process.t :=
  let value := Deployed.parseOrZero (Body.value newProcess) in
  let purchasedValue := Deployed.parseOrZero (Body.purchasedValue newProcess) in
  location ← decodeLocation (Body.location newProcess);
  let attachments := uploaded files in
  let history := [HistoryEntry.mk (Body.fase newProcess) now None] in
  match location ≫= readable with
  | Some l =>
      Ok (Process.mk Date_now (Body.fase newProcess) (Some l)
            (Some (Num value)) (Some (Num purchasedValue))
            (Body.contractDate newProcess) (Some now)
            (Body.logHistory newProcess) (Some attachments)
            (Some history)
            (Some [LocationEntry.mk (Location.sector l) (Location.responsible l)
                                    now None])
            (Body.other newProcess))
  | None => Throw TypeError
  end.

(** [app.post('/api/processes')] of server.js, lines 82-115. *)
Definition server_js_createProcess (newProcess : Body.t)
           (files : option (list Attachment.t))
           (now : string) (Date_now : Z) : result Process.t :=
  let value := ServerJs.parseValue (Body.value newProcess) in
  location ← decodeLocation (Body.location newProcess);
  let attachments := uploaded files in
  let history := [HistoryEntry.mk (Body.fase newProcess) now None] in
  match location ≫= readable with
  | Some l =>
      Ok (Process.mk Date_now (Body.fase newProcess) (Some l)
            (Some (Num value)) (Body.purchasedValue newProcess)
            (Body.contractDate newProcess) (Some now)
            (Body.logHistory newProcess) (Some attachments)
            (Some history)
            (Some [LocationEntry.mk (Location.sector l) (Location.responsible l)
                                    now None])
            (Body.other newProcess))
  | None => Throw TypeError
  end.

(** The POST handlers on the stored processes: what is stored afterwards,
    and the response. *)
Definition deployed_post (processes : list Process.t) (body : Body.t)
           (files : option (list Attachment.t)) (now : string) (Date_now : Z)
  : list Process.t * result Process.t :=
  match deployed_createProcess body files now Date_now with
  | Ok newProcess => (processes ++ [newProcess], Ok newProcess)
  | Throw e => (processes, Throw e)
  end.

Definition server_js_post (processes : list Process.t) (body : Body.t)
           (files : option (list Attachment.t)) (now : string) (Date_now : Z)
  : list Process.t * result Process.t :=
  match server_js_createProcess body files now Date_now with
  | Ok newProcess => (processes ++ [newProcess], Ok newProcess)
  | Throw e => (processes, Throw e)
  end.

(** [app.put('/api/processes/:id')] of part_000, lines 136-187. *)
Definition deployed_applyUpdate (existingProcess : Process.t) (processId : Z)
           (updatedData : Body.t) (files : option (list Attachment.t))
           (now : string) : result Process.t :=
  let value := parseIfTruthy (Body.value updatedData) in
  let purchasedValue := parseIfTruthy (Body.purchasedValue updatedData) in
  let history := Deployed.trackFase existingProcess updatedData now in
  newLocation ← decodeLocation (Body.location updatedData);
  locationHistory ← Deployed.trackLocation existingProcess updatedData
                                           (truthyLocation newLocation) now;
  Ok (withLocation
        (mergeLocation newLocation (Process.location existingProcess))
        (merge existingProcess processId updatedData value purchasedValue
               None (Some history) (Some locationHistory) (uploaded files))).

(** [app.put('/api/processes/:id')] of server.js, lines 139-188. *)
Definition server_js_applyUpdate (existingProcess : Process.t) (processId : Z)
           (updatedData : Body.t) (files : option (list Attachment.t))
           (now : string) : result Process.t :=
  let history := ServerJs.trackFase existingProcess updatedData now in
  newLocation ← decodeLocation (Body.location updatedData);
  locationHistory ← ServerJs.trackLocation existingProcess
                                           (truthyLocation newLocation) now;
  let value := parseIfTruthy (Body.value updatedData) in
  Ok (withLocation
        (mergeLocation newLocation (Process.location existingProcess))
        (merge existingProcess processId updatedData value
               (Body.purchasedValue updatedData)
               None history locationHistory (uploaded files))).

(** The runtime that sees objects only: any other value is a text that it
    does not decode. *)
Definition objectsOnly : JSRuntime := {|
  parseFloat_text := parseFloat_text;
  JSON_parse := λ s, match parse s with Some (Object l) => Some l | _ => None end;
  Date_toISOString := Date_toISOString
|}.

(** The location text of the body, if any, decodes to an object or is
    rejected. *)
Definition objectOrRejected (b : Body.t) : Prop :=
  ∀ s v, Body.location b = Some (LocText s) → parse s = Some v → ∃ l, v = Object l.

End WithRuntime.
End AnyJSON.

(** [JSON.parse] on the texts [null], [0], [false] and [123], and on the
    texts of [ref_JSON_parse]. *)
Definition ref_parse (s : string) : option AnyJSON.value :=
  if bool_decide (s = "null") then Some AnyJSON.Null
  else if bool_decide (s = "0") then Some (AnyJSON.Primitive false)
  else if bool_decide (s = "false") then Some (AnyJSON.Primitive false)
  else if bool_decide (s = "123") then Some (AnyJSON.Primitive true)
  else AnyJSON.Object <$> ref_JSON_parse s.

Global Instance ref_any_runtime : AnyJSON.Runtime := {| AnyJSON.parse := ref_parse |}.

(** The text that [JSON.stringify({sector, responsible})] writes. *)
Definition serialized (sector responsible : string) : string :=
  String.append "{"
    (String.append (quoted "sector") (String.append ":"
    (String.append (quoted sector) (String.append ","
    (String.append (quoted "responsible") (String.append ":"
    (String.append (quoted responsible) "}"))))))).

(** A body that brings a location as text. *)
Definition locationText (s : string) (b : bool) : Body.t :=
  Body.mk None None (Some (LocText s)) None None None None (Some (FlagBool b))
          None None None ∅.

(** * Theorems *)

(** ** Arrays *)

Section Arrays.
Context {A : Type}.
Implicit Types (l pre : list A) (x y : A).

Lemma lastEntry_last l : lastEntry l = last l.
Proof. unfold lastEntry, lastIndex. by rewrite last_lookup, Nat.sub_1_r. Qed.

Lemma lastEntry_snoc pre x : lastEntry (pre ++ [x]) = Some x.
Proof. rewrite lastEntry_last. apply last_snoc. Qed.

Lemma lastEntry_nil : lastEntry (@nil A) = None.
Proof. reflexivity. Qed.

Lemma lastEntry_Some l x : lastEntry l = Some x → ∃ pre, l = pre ++ [x].
Proof. rewrite lastEntry_last. by intros ?%last_Some. Qed.

Lemma lastEntry_None l : lastEntry l = None → l = [].
Proof. rewrite lastEntry_last. apply last_None. Qed.

Lemma insert_lastIndex_snoc pre x y :
  <[lastIndex (pre ++ [x]) := y]> (pre ++ [x]) = pre ++ [y].
Proof.
  unfold lastIndex. rewrite length_app. simpl.
  replace (length pre + 1 - 1)%nat with (length pre + 0)%nat by lia.
  by rewrite insert_app_r.
Qed.

Lemma removelast_snoc pre x : removelast (pre ++ [x]) = pre.
Proof. apply removelast_last. Qed.

End Arrays.

(** ** The repair pass *)

Section RepairFacts.
Context {rt : JSRuntime}.
Import Ajustar.

Lemma guard_Some processo cd h :
  guard processo = Some (cd, h) ↔
  Process.fase processo = Some Contratado
  ∧ Process.contractDate processo = Some cd ∧ cd ≠ ""
  ∧ Process.history processo = Some h ∧ (0 < length h)%nat.
Proof.
  unfold guard, truthy_str. split.
  - destruct (bool_decide_reflect (Process.fase processo = Some Contratado)); [|done].
    destruct (Process.contractDate processo) as [cd'|]; [|done].
    destruct (Process.history processo) as [h'|]; [|done].
    destruct (bool_decide_reflect (cd' = "")); [done|].
    destruct (bool_decide_reflect (0 < length h')%nat); [|done].
    simpl. by intros [= <- <-].
  - intros (-> & -> & Hne & -> & Hlen).
    by rewrite bool_decide_eq_true_2, bool_decide_eq_false_2, bool_decide_eq_true_2.
Qed.

Lemma guard_None processo : guard processo = None → ¬ qualifies processo.
Proof.
  unfold guard, qualifies, truthy_str. intros Hg (Hf & Hc & Hl).
  rewrite bool_decide_eq_true_2 in Hg by done.
  destruct (Process.contractDate processo) as [cd|]; [|done].
  destruct (Process.history processo) as [h|]; [|done].
  simpl in Hl. destruct (last h) as [e|] eqn:He; [|done].
  apply last_Some in He as [pre ->]. rewrite Hc in Hg. simpl in Hg.
  rewrite bool_decide_eq_true_2 in Hg; [done|]. rewrite length_app. simpl. lia.
Qed.

(** The callback returns exactly when the contract date can be anchored,
    and then it computes [repaired] and reports [qualifies]. *)
Lemma callback_anchored processo :
  anchored processo →
  callback processo = Ok (repaired processo, bool_decide (qualifies processo)).
Proof.
  intros Ha. unfold callback, repaired.
  destruct (guard processo) as [[cd h]|] eqn:Hg.
  - destruct (Ha _ _ Hg) as [iso Hiso]. rewrite Hiso.
    apply guard_Some in Hg as (Hf & Hc & Hne & Hh & Hlen).
    destruct (lastEntry h) as [u|] eqn:Hu.
    2:{ apply lastEntry_None in Hu. subst h. simpl in Hlen. lia. }
    apply lastEntry_Some in Hu as [pre ->].
    assert (Hcan : canonicalTimestamp processo = Some iso).
    { unfold canonicalTimestamp. by rewrite Hc. }
    assert (Hq : qualifies processo ↔
                 HistoryEntry.fase u = Some Contratado ∧ HistoryEntry.startDate u ≠ iso).
    { unfold qualifies. rewrite Hf, Hc, Hh, Hcan. simpl. rewrite last_snoc.
      unfold truthy_str. rewrite bool_decide_eq_false_2 by done. simpl.
      split.
      - intros (_ & _ & Hu & Hs). split; [done|]. intros E. apply Hs. by rewrite E.
      - intros [Hu Hs]. repeat split; [done|]. intros [= ?]. by apply Hs. }
    rewrite Hcan, Hh. simpl.
    destruct (decide (qualifies processo)) as [Hy|Hn].
    + rewrite (bool_decide_eq_true_2 _ Hy).
      apply Hq in Hy as [Hy1 Hy2].
      rewrite !bool_decide_eq_true_2 by done. simpl.
      rewrite insert_lastIndex_snoc. unfold overwriteStart.
      by rewrite last_snoc, removelast_snoc.
    + rewrite (bool_decide_eq_false_2 _ Hn).
      destruct (bool_decide (HistoryEntry.fase u = Some Contratado)) eqn:E1;
        destruct (bool_decide (HistoryEntry.startDate u ≠ iso)) eqn:E2; simpl; try done.
      apply bool_decide_eq_true in E1, E2. exfalso. apply Hn, Hq. done.
  - pose proof (guard_None _ Hg) as Hn.
    rewrite (bool_decide_eq_false_2 _ Hn).
    by destruct (decide (qualifies processo)).
Qed.

Lemma callback_Ok processo processo' b :
  callback processo = Ok (processo', b) → anchored processo.
Proof.
  unfold callback, anchored. intros Hc cd h Hg. rewrite Hg in Hc.
  destruct (dataContratacaoISO cd); [eauto|done].
Qed.

Lemma qualifies_guard p : qualifies p → is_Some (guard p).
Proof.
  intros Hq. destruct (guard p) eqn:Hg; [eauto|]. by apply guard_None in Hg.
Qed.

Lemma set_history_same p : Process.set_history (Process.history p) p = p.
Proof. by destruct p. Qed.

(** What [repaired] does, case by case. *)
Lemma repaired_cases p :
  anchored p →
  (¬ qualifies p ∧ repaired p = p)
  ∨ (qualifies p
     ∧ ∃ pre e c, Process.history p = Some (pre ++ [e])
                  ∧ canonicalTimestamp p = Some c
                  ∧ HistoryEntry.startDate e ≠ c
                  ∧ repaired p
                    = Process.set_history (Some (pre ++ [set_startDate c e])) p).
Proof.
  intros Ha. unfold repaired.
  destruct (decide (qualifies p)) as [Hq|Hq]; [right|by left].
  split; [done|].
  destruct (qualifies_guard _ Hq) as [[cd h] Hg].
  destruct (Ha _ _ Hg) as [c Hc].
  apply guard_Some in Hg as (Hf & Hcd & Hne & Hh & Hlen).
  assert (Hcan : canonicalTimestamp p = Some c).
  { unfold canonicalTimestamp. by rewrite Hcd. }
  destruct Hq as (_ & _ & Hl). rewrite Hh in Hl. simpl in Hl.
  destruct (last h) as [e|] eqn:He; [|done].
  apply last_Some in He as [pre ->].
  exists pre, e, c. rewrite Hcan, Hh. simpl.
  unfold overwriteStart. rewrite last_snoc, removelast_snoc.
  repeat split; try done. intros E. destruct Hl as [_ Hl]. apply Hl.
  by rewrite Hcan, E.
Qed.

Lemma repaired_anchored p : anchored p → anchored (repaired p).
Proof.
  intros Ha. destruct (repaired_cases p Ha) as [[_ ->]|(_ & pre & e & c & Hh & _ & _ & ->)];
    [done|].
  intros cd h (Hf & Hcd & Hne & _)%guard_Some.
  simpl in Hf, Hcd. eapply (Ha cd (pre ++ [e])). apply guard_Some.
  repeat split; try done. rewrite length_app. simpl. lia.
Qed.

Lemma repaired_not_qualifies p : anchored p → ¬ qualifies (repaired p).
Proof.
  intros Ha. destruct (repaired_cases p Ha) as [[Hn ->]|(_ & pre & e & c & Hh & Hc & _ & ->)];
    [done|].
  intros (_ & _ & Hl). simpl in Hl. rewrite last_snoc in Hl.
  destruct Hl as [_ Hl]. apply Hl. unfold canonicalTimestamp in *. simpl. by rewrite Hc.
Qed.

Lemma repaired_frame p : anchored p → frame p (repaired p).
Proof.
  intros Ha. destruct (repaired_cases p Ha) as [[Hn ->]|(Hq & pre & e & c & Hh & Hc & _ & ->)].
  - split; [by rewrite set_history_same | by left].
  - split; [by destruct p|]. right. split; [done|]. by exists pre, e, c.
Qed.

(** The loop on an input that can be anchored throughout. *)
Lemma forEach_anchored visited n ps :
  Forall anchored ps →
  forEach visited n ps
  = Returned (visited ++ (repaired <$> ps)) (n + length (filter qualifies ps)).
Proof.
  intros Ha. revert visited n. induction Ha as [|p ps Hp _ IH]; intros visited n.
  - simpl. by rewrite app_nil_r, Nat.add_0_r.
  - simpl. rewrite (callback_anchored _ Hp), IH, <- app_assoc. simpl.
    rewrite filter_cons. destruct (decide (qualifies p)) as [Hq|Hq].
    + rewrite (bool_decide_eq_true_2 _ Hq). simpl. f_equal. lia.
    + by rewrite (bool_decide_eq_false_2 _ Hq).
Qed.

Lemma forEach_Returned visited n ps ps' n' :
  forEach visited n ps = Returned ps' n' → Forall anchored ps.
Proof.
  revert visited n. induction ps as [|p ps IH]; intros visited n Hr; [constructor|].
  simpl in Hr. destruct (callback p) as [[p' b]|e] eqn:Hc; [|done].
  constructor; [by eapply callback_Ok | by eapply IH].
Qed.

(** The loop in general: whatever stops it, the array in memory is framed. *)
Lemma forEach_frame visited n ps :
  ∃ out, memory (forEach visited n ps) = visited ++ out ∧ Forall2 frame ps out.
Proof.
  revert visited n. induction ps as [|p ps IH]; intros visited n.
  - exists []. by rewrite app_nil_r.
  - simpl. destruct (callback p) as [[p' b]|e] eqn:Hc.
    + destruct (IH (visited ++ [p']) (if b then S n else n)) as (out & -> & Hf).
      exists (p' :: out). rewrite <- app_assoc. split; [done|].
      constructor; [|done]. pose proof (callback_Ok _ _ _ Hc) as Ha.
      rewrite (callback_anchored _ Ha) in Hc. injection Hc as <- _.
      by apply repaired_frame.
    + exists (p :: ps). split; [done|].
      apply Forall2_same_length_lookup_2; [done|].
      intros i x y Hx Hy. rewrite Hx in Hy. injection Hy as <-.
      split; [by rewrite set_history_same | by left].
Qed.

Lemma filter_none {A} (P : A → Prop) `{∀ x, Decision (P x)} (l : list A) :
  Forall (λ x, ¬ P x) l → filter P l = [].
Proof.
  induction 1 as [|x l Hx _ IH]; [done|].
  by rewrite filter_cons, decide_False.
Qed.

(** After a run that returned, a second run finds every date anchored,
    nothing to overwrite and nothing to count. *)
Lemma second_run ps :
  Forall anchored ps →
  Forall anchored (repaired <$> ps)
  ∧ repaired <$> (repaired <$> ps) = repaired <$> ps
  ∧ filter qualifies (repaired <$> ps) = [].
Proof.
  intros Ha. split; [|split].
  - apply Forall_fmap. eapply Forall_impl; [exact Ha|]. apply repaired_anchored.
  - rewrite <- list_fmap_compose. apply Forall_fmap_ext_1.
    eapply Forall_impl; [exact Ha|]. intros p Hp. simpl.
    destruct (repaired_cases _ (repaired_anchored _ Hp)) as [[_ ->]|[Hq _]]; [done|].
    by apply repaired_not_qualifies in Hq.
  - apply filter_none, Forall_fmap.
    eapply Forall_impl; [exact Ha|]. intros p Hp. by apply repaired_not_qualifies.
Qed.

Lemma anchorable_anchored p : anchorable p → anchored p.
Proof.
  intros Ha cd h (Hf & Hc & Hne & Hh & Hlen)%guard_Some.
  destruct (Ha cd Hf Hc Hne) as [c Hc'].
  - exists h. split; [done|]. intros ->. simpl in Hlen. lia.
  - by exists c.
Qed.

Lemma qualifies_needsCorrection p :
  anchored p → qualifies p ↔ ∃ pre e c, needsCorrection p pre e c.
Proof.
  intros Ha. split.
  - intros Hq. pose proof Hq as (Hf & Ht & _).
    destruct (repaired_cases p Ha) as [[Hn _]|(_ & pre & e & c & Hh & Hc & Hs & _)];
      [done|].
    exists pre, e, c. unfold canonicalTimestamp in Hc.
    destruct (Process.contractDate p) as [cd|] eqn:Hcd; [|done]. simpl in Hc.
    repeat split; try done.
    + exists cd. split; [done|]. split; [|done]. intros ->. by vm_compute in Ht.
    + destruct Hq as (_ & _ & Hl). rewrite Hh in Hl. simpl in Hl.
      rewrite last_snoc in Hl. by destruct Hl.
  - intros (pre & e & c & Hf & (cd & Hcd & Hne & Hc) & Hh & He & Hs).
    unfold qualifies, canonicalTimestamp. rewrite Hcd, Hh. simpl.
    rewrite last_snoc. repeat split; try done.
    + unfold truthy_str. by rewrite bool_decide_eq_false_2.
    + unfold anchoredAt in Hc. unfold dataContratacaoISO. rewrite Hc.
      intros [= ?]. done.
Qed.

(** C6, amended. On a list in which every process that passes the guard
    has a contract date that [Date] can render, the pass returns; its counter
    is the number of processes that satisfy the five conditions (phase
    "Contratado", contract date present, history not empty, last entry in
    phase "Contratado", its start date different from the contract date
    anchored at T12:00:00Z); each of these comes out with the start date of
    its last history entry replaced by that timestamp and nothing else
    changed, and every other process comes out as it went in. *)
Theorem repair_overwrites_iff (ps : list Process.t) :
  Forall anchorable ps →
  ∃ ps',
    repairContractDates ps = Returned ps' (length (filter qualifies ps))
    ∧ length ps' = length ps
    ∧ (∀ p, p ∈ ps → qualifies p ↔ ∃ pre e c, needsCorrection p pre e c)
    ∧ ∀ i p, ps !! i = Some p →
        ∃ p', ps' !! i = Some p'
          ∧ (∀ pre e c, needsCorrection p pre e c →
               p' = Process.mk
                      (Process.id p) (Process.fase p) (Process.location p)
                      (Process.value p) (Process.purchasedValue p)
                      (Process.contractDate p) (Process.creationDate p)
                      (Process.logHistory p) (Process.attachments p)
                      (Some (pre ++ [HistoryEntry.mk (HistoryEntry.fase e) c
                                                     (HistoryEntry.endDate e)]))
                      (Process.locationHistory p) (Process.other p))
          ∧ ((¬ ∃ pre e c, needsCorrection p pre e c) → p' = p).
Proof.
  intros Hable.
  assert (Ha : Forall anchored ps).
  { eapply Forall_impl; [exact Hable|]. apply anchorable_anchored. }
  exists (repaired <$> ps). split; [|split; [|split]].
  - unfold repairContractDates. by rewrite (forEach_anchored _ _ _ Ha).
  - apply length_fmap.
  - intros p Hp. apply qualifies_needsCorrection.
    by apply (proj1 (Forall_forall _ _) Ha).
  - intros i p Hi. exists (repaired p). split; [by rewrite list_lookup_fmap, Hi|].
    assert (Hp : anchored p) by exact (proj1 (Forall_lookup _ _) Ha i p Hi).
    split.
    + intros pre e c Hn.
      assert (Hq : qualifies p) by (apply qualifies_needsCorrection; eauto).
      destruct (repaired_cases p Hp)
        as [[Hno _]|(_ & pre' & e' & c' & Hh & Hc & _ & ->)]; [done|].
      destruct Hn as (_ & (cd & Hcd & _ & Hcc) & Hh' & _).
      rewrite Hh in Hh'. injection Hh' as Hh'.
      apply app_inj_tail in Hh' as [-> ->].
      unfold canonicalTimestamp in Hc. rewrite Hcd in Hc. simpl in Hc.
      unfold anchoredAt in Hcc. unfold dataContratacaoISO in Hc.
      rewrite Hcc in Hc. injection Hc as ->. by destruct p.
    + intros Hno.
      destruct (repaired_cases p Hp) as [[_ ->]|[Hq _]]; [done|].
      exfalso. apply Hno. by apply qualifies_needsCorrection.
Qed.

(** C7. When a first run returns, a second run on its output returns the
    same array with the counter at 0; and the script as a whole, which
    writes the file only after a run that returned a positive counter,
    changes nothing when run on the file it left. *)
Theorem repair_idempotent :
  (∀ ps ps' n,
     repairContractDates ps = Returned ps' n →
     repairContractDates ps' = Returned ps' 0)
  ∧ (∀ file,
       ajustarDatasDeContratacao (ajustarDatasDeContratacao file)
       = ajustarDatasDeContratacao file).
Proof.
  assert (Hrun : ∀ ps ps' n,
             repairContractDates ps = Returned ps' n →
             repairContractDates ps' = Returned ps' 0).
  { unfold repairContractDates. intros ps ps' n Hr.
    pose proof (forEach_Returned _ _ _ _ _ Hr) as Ha.
    rewrite (forEach_anchored _ _ _ Ha) in Hr. injection Hr as <- _. simpl.
    destruct (second_run _ Ha) as (Ha' & Hfix & Hnone).
    by rewrite (forEach_anchored _ _ _ Ha'), Hfix, Hnone. }
  split; [exact Hrun|].
  intros file. unfold ajustarDatasDeContratacao at 2 3.
  destruct (repairContractDates file) as [data n|e data] eqn:Hr.
  - case_bool_decide as Hn.
    + unfold ajustarDatasDeContratacao. by rewrite (Hrun _ _ _ Hr).
    + unfold ajustarDatasDeContratacao. rewrite Hr. by rewrite bool_decide_eq_false_2.
  - unfold ajustarDatasDeContratacao. by rewrite Hr.
Qed.

(** C10. However the pass ends, the array in memory has the same processes
    in the same order, and each is what it was except, for a qualifying
    process, the start date of the last entry of its phase history. *)
Theorem repair_frame (ps : list Process.t) :
  Forall2 frame ps (memory (repairContractDates ps)).
Proof.
  unfold repairContractDates.
  destruct (forEach_frame [] 0 ps) as (out & -> & Hf). done.
Qed.

End RepairFacts.

Lemma repair_overwrites_iff_witness :
  Ajustar.repairContractDates [contratado]
  = Ajustar.Returned
      [Process.mk 1 (Some "Contratado") (Some (Location.mk (Some "A") (Some "X")))
         (Some (Num 100)) None (Some "2024-03-15") (Some "2024-03-01T09:00:00.000Z")
         None (Some [])
         (Some [HistoryEntry.mk (Some "Planejamento") "2024-03-01T09:00:00.000Z"
                                (Some "2024-03-14T23:00:00.000Z");
                HistoryEntry.mk (Some "Contratado") "2024-03-15T12:00:00.000Z" None])
         (Some [LocationEntry.mk (Some "A") (Some "X") "2024-03-01T09:00:00.000Z"
                                 None])
         ∅] 1.
Proof.
  destruct (repair_overwrites_iff [contratado]) as (ps' & Hr & Hlen & _ & Hat).
  - constructor; [|constructor]. intros cd _ [= <-] _ _.
    exists "2024-03-15T12:00:00.000Z". reflexivity.
  - destruct (Hat 0%nat contratado eq_refl) as (p' & Hp' & Hfix & _).
    rewrite Hr. destruct ps' as [|q [|q' l]]; try discriminate.
    injection Hp' as ->.
    rewrite (Hfix [HistoryEntry.mk (Some "Planejamento") "2024-03-01T09:00:00.000Z"
                                   (Some "2024-03-14T23:00:00.000Z")]
                  (HistoryEntry.mk (Some "Contratado") "2024-03-14T23:00:00.000Z" None)
                  "2024-03-15T12:00:00.000Z").
    + reflexivity.
    + repeat split; try discriminate.
      exists "2024-03-15". repeat split. discriminate.
Defined.

(** C6 as stated fails: [contratado] satisfies the five conditions, but
    behind a process whose contract date is no calendar date the loop never
    reaches it: it is neither overwritten nor counted. *)
Lemma repair_overwrites_counterexample :
  needsCorrection contratado
    [HistoryEntry.mk (Some "Planejamento") "2024-03-01T09:00:00.000Z"
                     (Some "2024-03-14T23:00:00.000Z")]
    (HistoryEntry.mk (Some "Contratado") "2024-03-14T23:00:00.000Z" None)
    "2024-03-15T12:00:00.000Z"
  ∧ Ajustar.repairContractDates [semData; contratado]
    = Ajustar.Threw RangeError [semData; contratado].
Proof.
  split; [|reflexivity].
  repeat split; try discriminate.
  exists "2024-03-15". repeat split. discriminate.
Qed.

Lemma repair_idempotent_witness :
  Ajustar.repairContractDates
    [Process.set_history
       (Some [HistoryEntry.mk (Some "Planejamento") "2024-03-01T09:00:00.000Z"
                              (Some "2024-03-14T23:00:00.000Z");
              HistoryEntry.mk (Some "Contratado") "2024-03-15T12:00:00.000Z" None])
       contratado]
  = Ajustar.Returned
      [Process.set_history
         (Some [HistoryEntry.mk (Some "Planejamento") "2024-03-01T09:00:00.000Z"
                                (Some "2024-03-14T23:00:00.000Z");
                HistoryEntry.mk (Some "Contratado") "2024-03-15T12:00:00.000Z" None])
         contratado] 0.
Proof.
  apply (proj1 repair_idempotent [contratado] _ 1%nat). vm_compute. reflexivity.
Defined.

(** ** Histories *)

Section HistoryFacts.
Context {E : Type} (startOf : E → string) (endOf : E → option string).
Context (sameFields : E → E → Prop) (close : string → E → E).
Hypothesis close_end : ∀ now e, endOf (close now e) = Some now.
Hypothesis close_start : ∀ now e, startOf (close now e) = startOf e.
Hypothesis close_same : ∀ now e, sameFields e (close now e).
Hypothesis same_refl : ∀ e, sameFields e e.
Implicit Types (h pre : list E) (e : E).

Lemma closeLast_snoc now pre e :
  closeLast (close now) (pre ++ [e]) = pre ++ [close now e].
Proof. unfold closeLast. by rewrite lastEntry_snoc, insert_lastIndex_snoc. Qed.

Lemma closeLast_nil now : closeLast (close now) [] = [].
Proof. reflexivity. Qed.

Lemma closeLast_length now h : length (closeLast (close now) h) = length h.
Proof. unfold closeLast. destruct (lastEntry h); [apply length_insert|done]. Qed.

Lemma openCount_app h1 h2 :
  openCount endOf (h1 ++ h2) = (openCount endOf h1 + openCount endOf h2)%nat.
Proof. unfold openCount. by rewrite filter_app, length_app. Qed.

Lemma openCount_closed pre :
  forallb (closedInterval startOf endOf) pre = true → openCount endOf pre = 0%nat.
Proof.
  unfold openCount. intros Hc. rewrite filter_none; [done|].
  apply Forall_forall. intros e He.
  assert (Hx : closedInterval startOf endOf e = true).
  { eapply (proj1 (forallb_forall _ _)); [exact Hc|]. by apply list_elem_of_In. }
  unfold closedInterval, isOpen in *. destruct (endOf e); [|done].
  by rewrite bool_decide_eq_false_2.
Qed.

Lemma openCount_one e : endOf e = None → openCount endOf [e] = 1%nat.
Proof.
  intros He. unfold openCount. rewrite filter_cons, decide_True; [done|].
  unfold isOpen. by rewrite bool_decide_eq_true_2.
Qed.

Lemma openCount_zero e now : openCount endOf [close now e] = 0%nat.
Proof.
  unfold openCount. rewrite filter_cons, decide_False; [done|].
  unfold isOpen. rewrite close_end. by rewrite bool_decide_eq_false_2.
Qed.

(** A history whose earlier entries are closed and whose last entry is
    open has exactly one open entry, the last. *)
Lemma oneOpenLast_snoc pre e :
  intervals startOf endOf (pre ++ [e]) = true → endOf e = None →
  oneOpenLast endOf (pre ++ [e]).
Proof.
  unfold intervals. rewrite removelast_snoc. intros Hc He. split.
  - by rewrite openCount_app, (openCount_closed _ Hc), (openCount_one _ He).
  - exists e. by rewrite last_snoc.
Qed.

(** Closing the last entry and pushing an open one keeps it so. *)
Lemma oneOpenLast_push now pre e new :
  intervals startOf endOf (pre ++ [e]) = true → endOf new = None →
  oneOpenLast endOf (closeLast (close now) (pre ++ [e]) ++ [new]).
Proof.
  unfold intervals. rewrite removelast_snoc, closeLast_snoc. intros Hc Hn. split.
  - by rewrite !openCount_app, (openCount_closed _ Hc), openCount_zero,
      (openCount_one _ Hn).
  - exists new. by rewrite last_snoc.
Qed.

Lemma extended_refl h : extended startOf endOf sameFields h h.
Proof. split; [done|]. intros i e Hi. exists e. eauto. Qed.

Lemma extended_push now h new :
  extended startOf endOf sameFields h (closeLast (close now) h ++ [new]).
Proof.
  split.
  - rewrite length_app, closeLast_length. lia.
  - intros i e Hi. destruct (lastEntry h) as [u|] eqn:Hu.
    + apply lastEntry_Some in Hu as [pre ->]. rewrite closeLast_snoc.
      destruct (decide (i = length pre)) as [->|Hne].
      * rewrite lookup_app_r, Nat.sub_diag in Hi by done. injection Hi as <-.
        exists (close now u). rewrite <- app_assoc. rewrite lookup_app_r by done.
        rewrite Nat.sub_diag. simpl. repeat split; try done.
        right. unfold lastIndex. rewrite length_app. simpl. lia.
      * assert (i < length pre)%nat.
        { apply lookup_lt_Some in Hi. rewrite length_app in Hi. simpl in Hi. lia. }
        rewrite lookup_app_l in Hi by done.
        exists e. rewrite <- app_assoc, lookup_app_l by done. eauto.
    + apply lastEntry_None in Hu. subst h. done.
Qed.

End HistoryFacts.

(** ** The PUT handler of part_000 *)

Section DeployedFacts.
Context {rt : JSRuntime}.
Import Deployed.

Abbreviation hStart := HistoryEntry.startDate.
Abbreviation hEnd := HistoryEntry.endDate.
Abbreviation lStart := LocationEntry.startDate.
Abbreviation lEnd := LocationEntry.endDate.

Lemma applyUpdate_inv p pid u files now p' :
  applyUpdate p pid u files now = Ok p' →
  ∃ nl lh,
    decodeLocation (Body.location u) = Ok nl
    ∧ trackLocation p u nl now = Ok lh
    ∧ p' = merge p pid u (parseIfTruthy (Body.value u))
                 (parseIfTruthy (Body.purchasedValue u)) nl
                 (Some (trackFase p u now)) (Some lh) (uploaded files).
Proof.
  unfold applyUpdate. intros Hp.
  destruct (decodeLocation (Body.location u)) as [nl|]; [|done].
  unfold mbind, result_bind in Hp.
  destruct (trackLocation p u nl now) as [lh|] eqn:Hl; [|done].
  injection Hp as <-. by exists nl, lh.
Qed.

Lemma applyUpdate_Ok p pid u files now nl lh :
  decodeLocation (Body.location u) = Ok nl →
  trackLocation p u nl now = Ok lh →
  applyUpdate p pid u files now
  = Ok (merge p pid u (parseIfTruthy (Body.value u))
              (parseIfTruthy (Body.purchasedValue u)) nl
              (Some (trackFase p u now)) (Some lh) (uploaded files)).
Proof.
  intros Hd Hl. unfold applyUpdate. rewrite Hd. unfold mbind, result_bind.
  by rewrite Hl.
Qed.

(** The phase block either leaves the history or closes and pushes. *)
Lemma trackFase_cases p u now :
  trackFase p u now = historyOf p
  ∨ (logHistory u = true ∧ truthy_str (Body.fase u) = true
     ∧ Body.fase u ≠ Process.fase p
     ∧ trackFase p u now = pushFase now (Body.fase u) (historyOf p)).
Proof.
  unfold trackFase, historyOf.
  destruct (logHistory u); [|by left].
  destruct (truthy_str (Body.fase u)); [|by left].
  case_bool_decide; [by right | by left].
Qed.

(** The location block throws only on an empty history; otherwise it
    leaves the history or closes and pushes. *)
Lemma trackLocation_cases p u nl now lh :
  trackLocation p u nl now = Ok lh →
  lh = locationHistoryOf p
  ∨ (logHistory u = true
     ∧ ∃ l, nl = Some l ∧ lh = pushLocation now l (locationHistoryOf p)).
Proof.
  unfold trackLocation, locationHistoryOf.
  destruct (logHistory u); [|intros [= <-]; by left].
  destruct nl as [l|]; [|intros [= <-]; by left].
  destruct (lastEntry _) as [le|]; [|done].
  destruct (_ || _); intros [= <-]; [right|by left].
  split; [done|]. by exists l.
Qed.

Lemma trackLocation_total p u nl now :
  locationHistoryOf p ≠ [] → ∃ lh, trackLocation p u nl now = Ok lh.
Proof.
  unfold trackLocation, locationHistoryOf. intros Hne.
  destruct (logHistory u); [|eauto]. destruct nl as [l|]; [|eauto].
  destruct (lastEntry _) as [le|] eqn:Hl.
  - destruct (_ || _); eauto.
  - by apply lastEntry_None in Hl.
Qed.

Lemma trackLocation_off p u nl now :
  logHistory u = false → trackLocation p u nl now = Ok (locationHistoryOf p).
Proof. unfold trackLocation. by intros ->. Qed.

Lemma trackFase_off p u now : logHistory u = false → trackFase p u now = historyOf p.
Proof. unfold trackFase. by intros ->. Qed.

Lemma merge_histories p pid u v pv nl h lh fs :
  noHistoryKeys u →
  historyOf (merge p pid u v pv nl (Some h) (Some lh) fs) = h
  ∧ locationHistoryOf (merge p pid u v pv nl (Some h) (Some lh) fs) = lh.
Proof. intros [Hh Hl]. unfold historyOf, locationHistoryOf. simpl. by rewrite Hh, Hl. Qed.

(** What well-formedness and open ends say about the two histories. *)
Lemma wellFormed_shape p :
  wellFormed p = true → openEnded p = true →
  ∃ pre e lpre le,
    historyOf p = pre ++ [e] ∧ hEnd e = None
    ∧ intervals hStart hEnd (pre ++ [e]) = true
    ∧ locationHistoryOf p = lpre ++ [le] ∧ lEnd le = None
    ∧ intervals lStart lEnd (lpre ++ [le]) = true.
Proof.
  unfold wellFormed, openEnded.
  destruct (last (historyOf p)) as [e|] eqn:He; [|done].
  destruct (last (locationHistoryOf p)) as [le|] eqn:Hle; [|done].
  apply last_Some in He as [pre He]. apply last_Some in Hle as [lpre Hle].
  rewrite He, Hle.
  intros [[_ Hi]%andb_prop Hli]%andb_prop [Ho Hlo]%andb_prop.
  exists pre, e, lpre, le. unfold isOpen in *.
  apply bool_decide_eq_true in Ho, Hlo. done.
Qed.

(** C1, amended. A well-formed process whose two histories end in an open
    entry, updated with [logHistory] on by a body that brings no history of
    its own and whose location decodes: the call returns, and in the result
    each history has exactly one open entry, its last. *)
Theorem open_interval_after_update p pid u files now nl :
  wellFormed p = true → openEnded p = true →
  logHistory u = true → noHistoryKeys u →
  decodeLocation (Body.location u) = Ok nl →
  ∃ p', applyUpdate p pid u files now = Ok p'
        ∧ oneOpenLast hEnd (historyOf p')
        ∧ oneOpenLast lEnd (locationHistoryOf p').
Proof.
  intros Hwf Hopen _ Hkeys Hd.
  destruct (wellFormed_shape p Hwf Hopen)
    as (pre & e & lpre & le & Hh & He & Hi & Hlh & Hle & Hli).
  destruct (trackLocation_total p u nl now) as [lh Hl].
  { rewrite Hlh. by destruct lpre. }
  eexists. split; [by apply applyUpdate_Ok|].
  destruct (merge_histories p pid u (parseIfTruthy (Body.value u))
              (parseIfTruthy (Body.purchasedValue u)) nl (trackFase p u now) lh
              (uploaded files) Hkeys) as [-> ->].
  split.
  - destruct (trackFase_cases p u now) as [->|(_ & _ & _ & ->)]; rewrite Hh.
    + by eapply oneOpenLast_snoc.
    + unfold pushFase. by eapply (oneOpenLast_push hStart hEnd closeEntry).
  - destruct (trackLocation_cases _ _ _ _ _ Hl) as [->|(_ & l & _ & ->)]; rewrite Hlh.
    + by eapply oneOpenLast_snoc.
    + unfold pushLocation. by eapply (oneOpenLast_push lStart lEnd closeLocation).
Qed.

(** What the phase block pushes, entry by entry. *)
Lemma pushFase_cases now fase h :
  (∀ pre e, h = pre ++ [e] →
     pushFase now fase h
     = pre ++ [HistoryEntry.mk (HistoryEntry.fase e) (HistoryEntry.startDate e)
                               (Some now);
               HistoryEntry.mk fase now None])
  ∧ (h = [] → pushFase now fase h = [HistoryEntry.mk fase now None]).
Proof.
  split.
  - intros pre e ->. unfold pushFase.
    rewrite (closeLast_snoc closeEntry). by rewrite <- app_assoc.
  - by intros ->.
Qed.

(** C2, amended. With [logHistory] on, a phase in the body that is present
    and differs from the stored one, and no [history] key in the body: when
    the rest of the handler does not throw (the location decodes and, if one
    came, part_000 finds a location history that is not empty, server.js a
    stored location), the call returns and the stored phase history is the
    old one with the [endDate] of its last entry set to [now] (nothing to set
    on an empty history), followed by the open entry of the new phase. *)
Theorem phase_change_is_stored p pid u files now nl :
  logHistory u = true → truthy_str (Body.fase u) = true →
  Body.fase u ≠ Process.fase p →
  Body.history u = None →
  decodeLocation (Body.location u) = Ok nl →
  (nl = None ∨ locationHistoryOf p ≠ [] →
   ∃ p', applyUpdate p pid u files now = Ok p'
         ∧ (∀ pre e, historyOf p = pre ++ [e] →
              historyOf p'
              = pre ++ [HistoryEntry.mk (HistoryEntry.fase e)
                                        (HistoryEntry.startDate e) (Some now);
                        HistoryEntry.mk (Body.fase u) now None])
         ∧ (historyOf p = [] →
            historyOf p' = [HistoryEntry.mk (Body.fase u) now None]))
  ∧ (nl = None ∨ is_Some (Process.location p) →
     ∃ p', ServerJs.applyUpdate p pid u files now = Ok p'
           ∧ (∀ pre e, historyOf p = pre ++ [e] →
                historyOf p'
                = pre ++ [HistoryEntry.mk (HistoryEntry.fase e)
                                          (HistoryEntry.startDate e) (Some now);
                          HistoryEntry.mk (Body.fase u) now None])
           ∧ (historyOf p = [] →
              historyOf p' = [HistoryEntry.mk (Body.fase u) now None])).
Proof.
  intros Hlog Hpresent Hdiff Hkey Hd.
  destruct (pushFase_cases now (Body.fase u) (historyOf p)) as [Hsnoc Hnil].
  split.
  - intros Hret.
    assert (Ht : ∃ lh, trackLocation p u nl now = Ok lh).
    { destruct Hret as [->|Hne]; [|by apply trackLocation_total].
      unfold trackLocation. rewrite Hlog. eauto. }
    destruct Ht as [lh Ht]. eexists. split; [by apply applyUpdate_Ok|].
    unfold historyOf at 2 4. simpl. rewrite Hkey. simpl.
    unfold trackFase. fold (historyOf p).
    rewrite Hlog, Hpresent, bool_decide_eq_true_2 by done. simpl. by split.
  - intros Hret.
    assert (Ht : ∃ lh, ServerJs.trackLocation p nl now = Ok lh).
    { unfold ServerJs.trackLocation. destruct nl as [l|]; [|eauto].
      destruct Hret as [?|[pl Hpl]]; [done|]. rewrite Hpl.
      destruct (_ || _); eauto. }
    destruct Ht as [lh Ht]. unfold ServerJs.applyUpdate.
    rewrite Hd. unfold mbind, result_bind. rewrite Ht.
    eexists. split; [done|].
    unfold historyOf at 2 4. simpl. rewrite Hkey. simpl.
    unfold ServerJs.trackFase. fold (historyOf p).
    rewrite Hpresent, bool_decide_eq_true_2 by done. simpl. by split.
Qed.

(** C3, amended. With [logHistory] off, a body that brings no history of its
    own and whose location decodes: the call returns, both histories are the
    sequences they were, and every other key is merged: taken from the body
    where the body has it (numbers parsed, the location decoded), kept
    otherwise; the [id] is the one of the route and the uploaded files are
    appended to the attachments. *)
Theorem flag_off_keeps_histories p pid u files now nl :
  logHistory u = false → noHistoryKeys u →
  decodeLocation (Body.location u) = Ok nl →
  ∃ p', applyUpdate p pid u files now = Ok p'
        ∧ historyOf p' = historyOf p
        ∧ locationHistoryOf p' = locationHistoryOf p
        ∧ Process.id p' = pid
        ∧ Process.fase p' = spread (Body.fase u) (Process.fase p)
        ∧ Process.location p' = spread nl (Process.location p)
        ∧ Process.value p' = spread (parseIfTruthy (Body.value u)) (Process.value p)
        ∧ Process.purchasedValue p'
          = spread (parseIfTruthy (Body.purchasedValue u)) (Process.purchasedValue p)
        ∧ Process.contractDate p'
          = spread (Body.contractDate u) (Process.contractDate p)
        ∧ Process.creationDate p'
          = spread (Body.creationDate u) (Process.creationDate p)
        ∧ Process.logHistory p'
          = spread (Body.logHistory u) (Process.logHistory p)
        ∧ Process.attachments p'
          = Some (default [] (Process.attachments p) ++ default [] files)
        ∧ Process.other p' = Body.other u ∪ Process.other p.
Proof.
  intros Hlog Hkeys Hd. eexists. split.
  - apply applyUpdate_Ok; [exact Hd | by apply trackLocation_off].
  - destruct (merge_histories p pid u (parseIfTruthy (Body.value u))
                (parseIfTruthy (Body.purchasedValue u)) nl (trackFase p u now)
                (locationHistoryOf p) (uploaded files) Hkeys) as [-> ->].
    by rewrite (trackFase_off _ _ _ Hlog).
Qed.

(** One call, seen from the two histories. *)
Lemma stored_extended p c :
  noHistoryKeys (Call.body c) →
  extended hStart hEnd sameFase (historyOf p) (historyOf (stored p c))
  ∧ extended lStart lEnd sameLocation
             (locationHistoryOf p) (locationHistoryOf (stored p c)).
Proof.
  intros Hkeys. unfold stored.
  destruct (applyUpdate p _ _ _ _) as [p'|] eqn:Hp.
  - apply applyUpdate_inv in Hp as (nl & lh & _ & Hl & ->).
    destruct (merge_histories p (Call.processId c) (Call.body c)
                (parseIfTruthy (Body.value (Call.body c)))
                (parseIfTruthy (Body.purchasedValue (Call.body c))) nl
                (trackFase p (Call.body c) (Call.now c)) lh
                (uploaded (Call.files c)) Hkeys) as [-> ->].
    split.
    + destruct (trackFase_cases p (Call.body c) (Call.now c)) as [->|(_ & _ & _ & ->)].
      * by apply extended_refl.
      * by apply (extended_push hStart hEnd sameFase closeEntry).
    + destruct (trackLocation_cases _ _ _ _ _ Hl) as [->|(_ & l & _ & ->)].
      * by apply extended_refl.
      * by apply (extended_push lStart lEnd sameLocation closeLocation).
  - split; by apply extended_refl.
Qed.

Lemma stored_openEnded p c :
  noHistoryKeys (Call.body c) → openEnded p = true → openEnded (stored p c) = true.
Proof.
  intros Hkeys Ho. unfold stored.
  destruct (applyUpdate p _ _ _ _) as [p'|] eqn:Hp; [|done].
  apply applyUpdate_inv in Hp as (nl & lh & _ & Hl & ->).
  unfold openEnded in *.
  destruct (merge_histories p (Call.processId c) (Call.body c)
              (parseIfTruthy (Body.value (Call.body c)))
              (parseIfTruthy (Body.purchasedValue (Call.body c))) nl
              (trackFase p (Call.body c) (Call.now c)) lh
              (uploaded (Call.files c)) Hkeys) as [-> ->].
  destruct (last (historyOf p)) as [e|] eqn:He; [|done].
  destruct (last (locationHistoryOf p)) as [le|] eqn:Hle; [|done].
  apply andb_prop in Ho as [Ho1 Ho2].
  destruct (trackFase_cases p (Call.body c) (Call.now c)) as [->|(_ & _ & _ & ->)];
    destruct (trackLocation_cases _ _ _ _ _ Hl) as [->|(_ & l & _ & ->)];
    unfold pushFase, pushLocation; rewrite ?last_snoc, ?He, ?Hle, ?Ho1, ?Ho2; done.
Qed.

Lemma states_head p calls : states p calls !! 0%nat = Some p.
Proof. by destruct calls. Qed.

(** C5, amended. Along any sequence of calls whose bodies bring no history
    of their own, from any stored process: at each call neither history gets
    shorter, every entry that was there keeps its place, its [startDate] and
    its phase (or sector and responsible), and its [endDate] too unless it
    was the last entry when the call was made; and if the histories end in
    an open entry at the start, they do so at every call, so that the entry
    whose [endDate] is set is the open one. *)
Theorem history_append_only p calls :
  Forall (λ c, noHistoryKeys (Call.body c)) calls →
  (∀ k before after,
     states p calls !! k = Some before → states p calls !! S k = Some after →
     extended hStart hEnd sameFase (historyOf before) (historyOf after)
     ∧ extended lStart lEnd sameLocation
                (locationHistoryOf before) (locationHistoryOf after))
  ∧ (openEnded p = true → Forall (λ q, openEnded q = true) (states p calls)).
Proof.
  intros Hcalls. revert p. induction Hcalls as [|c calls Hc _ IH]; intros p.
  - split.
    + intros k before after _ Hk. by destruct k.
    + intros Ho. by repeat constructor.
  - destruct (IH (stored p c)) as [IH1 IH2]. split.
    + intros [|k] before after Hb Ha; simpl in Hb, Ha.
      * injection Hb as <-. rewrite states_head in Ha. injection Ha as <-.
        by apply stored_extended.
      * by eapply IH1.
    + intros Ho. simpl. constructor; [done|]. by apply IH2, stored_openEnded.
Qed.

Lemma parseOrZero_missing v : missingOrEmpty v → parseOrZero v = 0%float.
Proof. by intros [-> | ->]. Qed.

Lemma parseOrZero_text s : s ≠ "" → parseOrZero (Some (NumText s)) = parseFloat_text s.
Proof. intros Hs. unfold parseOrZero. simpl. by rewrite bool_decide_eq_false_2. Qed.

Lemma parseIfTruthy_text s :
  s ≠ "" → parseIfTruthy (Some (NumText s)) = Some (Num (parseFloat_text s)).
Proof. intros Hs. unfold parseIfTruthy. simpl. by rewrite bool_decide_eq_false_2. Qed.

(** C8, amended. In part_000, [createProcess] stores [value] and
    [purchasedValue] as numbers: 0 for a missing or empty key, the parsed
    number for text that is not empty.  [applyUpdate] parses text that is
    not empty before the merge, and a missing key leaves the stored number
    as it was. *)
Theorem numeric_fields_parsed :
  (∀ body files now ms p,
     createProcess body files now ms = Ok p →
     (missingOrEmpty (Body.value body) → Process.value p = Some (Num 0))
     ∧ (missingOrEmpty (Body.purchasedValue body) →
        Process.purchasedValue p = Some (Num 0))
     ∧ (∀ s, Body.value body = Some (NumText s) → s ≠ "" →
          Process.value p = Some (Num (parseFloat_text s)))
     ∧ (∀ s, Body.purchasedValue body = Some (NumText s) → s ≠ "" →
          Process.purchasedValue p = Some (Num (parseFloat_text s))))
  ∧ (∀ existing pid u files now p,
       applyUpdate existing pid u files now = Ok p →
       (∀ s, Body.value u = Some (NumText s) → s ≠ "" →
          Process.value p = Some (Num (parseFloat_text s)))
       ∧ (∀ s, Body.purchasedValue u = Some (NumText s) → s ≠ "" →
            Process.purchasedValue p = Some (Num (parseFloat_text s)))
       ∧ (Body.value u = None → Process.value p = Process.value existing)
       ∧ (Body.purchasedValue u = None →
          Process.purchasedValue p = Process.purchasedValue existing)).
Proof.
  split.
  - intros body files now ms p. unfold createProcess.
    destruct (decodeLocation (Body.location body)) as [[l|]|]; try done.
    intros [= <-]. simpl. repeat split.
    + intros Hv. by rewrite (parseOrZero_missing _ Hv).
    + intros Hv. by rewrite (parseOrZero_missing _ Hv).
    + intros s -> Hs. by rewrite (parseOrZero_text _ Hs).
    + intros s -> Hs. by rewrite (parseOrZero_text _ Hs).
  - intros existing pid u files now p (nl & lh & _ & _ & ->)%applyUpdate_inv.
    simpl. repeat split.
    + intros s -> Hs. by rewrite (parseIfTruthy_text _ Hs).
    + intros s -> Hs. by rewrite (parseIfTruthy_text _ Hs).
    + by intros ->.
    + by intros ->.
Qed.

(** C4. A stored process without a [location], and a body whose location
    decodes to an object: the handler of server.js throws a [TypeError] at
    [existingProcess.location.sector]; the handler of part_000 does not read
    [existingProcess.location] but throws the same at
    [lastLocationEntry.sector] when [logHistory] is on and the location
    history is missing or empty. *)
Theorem missing_location_throws p pid u files now l :
  Process.location p = None →
  decodeLocation (Body.location u) = Ok (Some l) →
  ServerJs.applyUpdate p pid u files now = Throw TypeError
  ∧ (logHistory u = true → locationHistoryOf p = [] →
     applyUpdate p pid u files now = Throw TypeError).
Proof.
  intros Hloc Hd. split.
  - unfold ServerJs.applyUpdate. rewrite Hd. unfold mbind, result_bind.
    unfold ServerJs.trackLocation. by rewrite Hloc.
  - intros Hlog Hlh. unfold applyUpdate. rewrite Hd. unfold mbind, result_bind.
    unfold trackLocation. unfold locationHistoryOf in Hlh. by rewrite Hlog, Hlh.
Qed.

(** With a location history that is not empty, part_000 compares the new
    location with its last entry, whatever [existingProcess.location] is. *)
Lemma deployed_compares_with_last_entry p u nl now :
  locationHistoryOf p ≠ [] →
  ∃ lh, trackLocation p u nl now = Ok lh
        ∧ trackLocation (Process.mk (Process.id p) (Process.fase p) None
                           (Process.value p) (Process.purchasedValue p)
                           (Process.contractDate p) (Process.creationDate p)
                           (Process.logHistory p) (Process.attachments p)
                           (Process.history p) (Process.locationHistory p)
                           (Process.other p)) u nl now = Ok lh.
Proof. intros Hne. destruct (trackLocation_total p u nl now Hne) as [lh Hl]. eauto. Qed.

Context {jr : AnyJSON.Runtime}.

(** C9, amended. When the body has no [location], or has one in text that
    [JSON.parse] rejects or decodes to [null], the POST handler of either
    server throws before anything is pushed or written: the file is as it
    was.  Every other location is accepted, whatever it holds: an object
    whatever keys it has, a number, a string, a boolean.  The process is
    stored, and the entry that seeds the location history has the [sector]
    and [responsible] that the value has, undefined when it has none. *)
Theorem createProcess_requires_location processes body files now ms :
  (Body.location body = None
   ∨ (∃ s, Body.location body = Some (LocText s)
           ∧ (AnyJSON.parse s = None ∨ AnyJSON.parse s = Some AnyJSON.Null)) →
   (∃ e, AnyJSON.deployed_post processes body files now ms = (processes, Throw e))
   ∧ (∃ e, AnyJSON.server_js_post processes body files now ms = (processes, Throw e)))
  ∧ (∀ v l, AnyJSON.decodeLocation (Body.location body) = Ok (Some v) →
       v = AnyJSON.Object l
       ∨ (∃ truthy, v = AnyJSON.Primitive truthy) ∧ l = Location.mk None None →
       ∃ p1 p2,
         AnyJSON.deployed_post processes body files now ms = (processes ++ [p1], Ok p1)
         ∧ AnyJSON.server_js_post processes body files now ms
           = (processes ++ [p2], Ok p2)
         ∧ Process.locationHistory p1
           = Some [LocationEntry.mk (Location.sector l) (Location.responsible l)
                                    now None]
         ∧ Process.locationHistory p2
           = Some [LocationEntry.mk (Location.sector l) (Location.responsible l)
                                    now None]).
Proof.
  split.
  - intros Hcond.
    assert (Hd : AnyJSON.decodeLocation (Body.location body) = Ok None
                 ∨ AnyJSON.decodeLocation (Body.location body) = Ok (Some AnyJSON.Null)
                 ∨ AnyJSON.decodeLocation (Body.location body) = Throw SyntaxError).
    { destruct Hcond as [-> | (s & -> & [Hs|Hs])]; [by left|right; right|right; left];
        unfold AnyJSON.decodeLocation; by rewrite Hs. }
    unfold AnyJSON.deployed_post, AnyJSON.server_js_post,
      AnyJSON.deployed_createProcess, AnyJSON.server_js_createProcess.
    destruct Hd as [-> | [-> | ->]]; split; by eexists.
  - intros v l Hd Hv.
    unfold AnyJSON.deployed_post, AnyJSON.server_js_post,
      AnyJSON.deployed_createProcess, AnyJSON.server_js_createProcess.
    rewrite Hd. destruct Hv as [-> | [[b ->] ->]]; simpl; eauto 10.
Qed.

Lemma createProcess_returns processes body files now ms l :
  decodeLocation (Body.location body) = Ok (Some l) →
  ∃ p, post processes body files now ms = (processes ++ [p], Ok p)
       ∧ Process.location p = Some l
       ∧ Process.history p = Some [HistoryEntry.mk (Body.fase body) now None]
       ∧ Process.locationHistory p
         = Some [LocationEntry.mk (Location.sector l) (Location.responsible l)
                                  now None].
Proof.
  intros Hd. unfold post, createProcess. rewrite Hd. simpl. eauto.
Qed.

End DeployedFacts.

(** ** The PUT handler of server.js *)

Section ServerJsFacts.
Context {rt : JSRuntime}.

(** One call of the handler of server.js, seen from the two histories:
    the same extension as in part_000. *)
Lemma server_js_extended p pid u files now p' :
  noHistoryKeys u →
  ServerJs.applyUpdate p pid u files now = Ok p' →
  extended HistoryEntry.startDate HistoryEntry.endDate sameFase
           (historyOf p) (historyOf p')
  ∧ extended LocationEntry.startDate LocationEntry.endDate sameLocation
             (locationHistoryOf p) (locationHistoryOf p').
Proof.
  intros [Hh Hl]. unfold ServerJs.applyUpdate.
  destruct (decodeLocation (Body.location u)) as [nl|]; [|done].
  unfold mbind, result_bind.
  destruct (ServerJs.trackLocation p nl now) as [lh|] eqn:Ht; [|done].
  intros [= <-]. unfold historyOf at 2, locationHistoryOf at 2. simpl.
  rewrite Hh, Hl. simpl. split.
  - unfold ServerJs.trackFase. destruct (_ && _); [|by apply extended_refl].
    by apply (extended_push _ _ sameFase closeEntry).
  - unfold ServerJs.trackLocation in Ht. destruct nl as [l|].
    + destruct (Process.location p); [|done].
      destruct (_ || _); injection Ht as <-; [|by apply extended_refl].
      by apply (extended_push _ _ sameLocation closeLocation).
    + injection Ht as <-. by apply extended_refl.
Qed.

End ServerJsFacts.

(** ** The PUT handler on the file *)

Section PutFacts.
Context {rt : JSRuntime}.

(** The handler rewrites the first process with the [id] of the route, and
    what it writes there is [stored]. *)
Lemma put_stored processes pid body files now i p :
  Deployed.findIndex pid processes = Some i →
  processes !! i = Some p →
  fst (Deployed.put processes pid body files now)
  = <[i := stored p (Call.mk pid body files now)]> processes.
Proof.
  intros Hi Hp. unfold Deployed.put, stored. rewrite Hi, Hp. simpl.
  destruct (Deployed.applyUpdate p pid body files now); simpl; [done|].
  symmetry. by apply list_insert_id.
Qed.

Lemma put_not_found processes pid body files now :
  Deployed.findIndex pid processes = None →
  Deployed.put processes pid body files now = (processes, Deployed.NotFound).
Proof. unfold Deployed.put. by intros ->. Qed.

End PutFacts.

Lemma open_interval_after_update_witness :
  ∃ p', Deployed.applyUpdate contratado 1 (novaFase "Encerrado" true) None
                             "2024-04-01T10:00:00.000Z" = Ok p'
        ∧ oneOpenLast HistoryEntry.endDate (historyOf p')
        ∧ oneOpenLast LocationEntry.endDate (locationHistoryOf p').
Proof.
  apply (open_interval_after_update contratado 1 (novaFase "Encerrado" true) None
           "2024-04-01T10:00:00.000Z" None); by vm_compute.
Defined.

(** C1 as stated fails: invariants 1 to 3 hold of [encerrado], whose phase
    history has no open entry, and an update that changes nothing leaves it
    without one. *)
Lemma open_interval_counterexample :
  wellFormed encerrado = true
  ∧ Deployed.logHistory (comLog true) = true
  ∧ ∃ p', Deployed.applyUpdate encerrado 3 (comLog true) None
                               "2024-05-01T10:00:00.000Z" = Ok p'
          ∧ openCount HistoryEntry.endDate (historyOf p') = 0%nat.
Proof. split; [|split]; [by vm_compute..|]. eexists. split; by vm_compute. Qed.

Lemma phase_change_is_stored_witness :
  (∃ p', Deployed.applyUpdate contratado 1 (novaFase "Encerrado" true) None
                              "2024-04-01T10:00:00.000Z" = Ok p'
         ∧ historyOf p'
           = [HistoryEntry.mk (Some "Planejamento") "2024-03-01T09:00:00.000Z"
                              (Some "2024-03-14T23:00:00.000Z");
              HistoryEntry.mk (Some "Contratado") "2024-03-14T23:00:00.000Z"
                              (Some "2024-04-01T10:00:00.000Z");
              HistoryEntry.mk (Some "Encerrado") "2024-04-01T10:00:00.000Z" None])
  ∧ (∃ p', ServerJs.applyUpdate contratado 1 (novaFase "Encerrado" true) None
                                "2024-04-01T10:00:00.000Z" = Ok p'
           ∧ historyOf p'
             = [HistoryEntry.mk (Some "Planejamento") "2024-03-01T09:00:00.000Z"
                                (Some "2024-03-14T23:00:00.000Z");
                HistoryEntry.mk (Some "Contratado") "2024-03-14T23:00:00.000Z"
                                (Some "2024-04-01T10:00:00.000Z");
                HistoryEntry.mk (Some "Encerrado") "2024-04-01T10:00:00.000Z" None]).
Proof.
  destruct (phase_change_is_stored contratado 1 (novaFase "Encerrado" true) None
              "2024-04-01T10:00:00.000Z" None) as [Hd Hs];
    [reflexivity|reflexivity|discriminate|reflexivity|reflexivity|].
  destruct (Hd (or_introl eq_refl)) as (p1 & Hp1 & Hsnoc1 & _).
  destruct (Hs (or_introl eq_refl)) as (p2 & Hp2 & Hsnoc2 & _).
  split.
  - exists p1. split; [exact Hp1|].
    exact (Hsnoc1 [HistoryEntry.mk (Some "Planejamento") "2024-03-01T09:00:00.000Z"
                                   (Some "2024-03-14T23:00:00.000Z")]
                  (HistoryEntry.mk (Some "Contratado") "2024-03-14T23:00:00.000Z" None)
                  eq_refl).
  - exists p2. split; [exact Hp2|].
    exact (Hsnoc2 [HistoryEntry.mk (Some "Planejamento") "2024-03-01T09:00:00.000Z"
                                   (Some "2024-03-14T23:00:00.000Z")]
                  (HistoryEntry.mk (Some "Contratado") "2024-03-14T23:00:00.000Z" None)
                  eq_refl).
Defined.

(** C2 as stated fails: the flag is on and the phase differs, but the body
    brings a [history] key, and what is stored is that key: no entry was
    closed, none appended. *)
Lemma phase_change_counterexample :
  Deployed.logHistory
    (Body.mk None (Some "Encerrado") None None None None None
             (Some (FlagBool true)) None (Some []) None ∅) = true
  ∧ Process.fase contratado = Some "Contratado"
  ∧ length (historyOf contratado) = 2%nat
  ∧ ∃ p', Deployed.applyUpdate contratado 1
            (Body.mk None (Some "Encerrado") None None None None None
                     (Some (FlagBool true)) None (Some []) None ∅)
            None "2024-04-01T10:00:00.000Z" = Ok p'
          ∧ historyOf p' = [].
Proof. repeat split. eexists. split; reflexivity. Qed.

Lemma flag_off_keeps_histories_witness :
  ∃ p', Deployed.applyUpdate contratado 1 (novaFase "Encerrado" false) None
                             "2024-04-01T10:00:00.000Z" = Ok p'
        ∧ historyOf p' = historyOf contratado
        ∧ Process.fase p' = Some "Encerrado".
Proof.
  destruct (flag_off_keeps_histories contratado 1 (novaFase "Encerrado" false) None
              "2024-04-01T10:00:00.000Z" None)
    as (p' & Hp & Hh & _ & _ & Hf & _); [by vm_compute..|].
  exists p'. split; [exact Hp|]. split; [exact Hh | exact Hf].
Defined.

(** C3 as stated fails: with the flag off, a body that brings a [history]
    key replaces the stored phase history in the merge. *)
Lemma flag_off_counterexample :
  Deployed.logHistory (semHistorico false) = false
  ∧ length (historyOf contratado) = 2%nat
  ∧ ∃ p', Deployed.applyUpdate contratado 1 (semHistorico false) None
                               "2024-04-01T10:00:00.000Z" = Ok p'
          ∧ historyOf p' = [].
Proof. split; [|split]; [by vm_compute..|]. eexists. split; by vm_compute. Qed.

(** server.js does not read the flag: the same request that part_000 only
    merges is tracked there. *)
Lemma server_js_tracks_without_flag :
  ∃ p', ServerJs.applyUpdate contratado 1 (novaFase "Encerrado" false) None
                             "2024-04-01T10:00:00.000Z" = Ok p'
        ∧ length (historyOf p') = 3%nat.
Proof. eexists. split; by vm_compute. Qed.

Lemma history_append_only_witness :
  Forall (λ q, openEnded q = true)
    (states contratado
       [Call.mk 1 (novaFase "Encerrado" true) None "2024-04-01T10:00:00.000Z";
        Call.mk 1 (novaLocation "B" "Y" true) None "2024-04-02T10:00:00.000Z"]).
Proof.
  apply (history_append_only contratado
           [Call.mk 1 (novaFase "Encerrado" true) None "2024-04-01T10:00:00.000Z";
            Call.mk 1 (novaLocation "B" "Y" true) None "2024-04-02T10:00:00.000Z"]).
  - repeat constructor.
  - by vm_compute.
Defined.

(** C5 as stated fails: one call whose body brings an empty [history]
    shortens the phase history from two entries to none. *)
Lemma append_only_counterexample :
  length (historyOf contratado) = 2%nat
  ∧ ∃ p', states contratado
            [Call.mk 1 (semHistorico true) None "2024-04-01T10:00:00.000Z"]
          = [contratado; p']
          ∧ length (historyOf p') = 0%nat.
Proof. split; [by vm_compute|]. eexists. split; by vm_compute. Qed.

Lemma numeric_fields_parsed_witness :
  Process.value contratado = Some (Num 100)
  ∧ ∃ p, Deployed.applyUpdate contratado 1
           (Body.mk None None None (Some (NumText "250")) None None None None
                    None None None ∅)
           None "2024-04-01T10:00:00.000Z" = Ok p
         ∧ Process.value p = Some (Num 250).
Proof.
  split; [reflexivity|].
  pose proof (proj2 numeric_fields_parsed contratado 1%Z
                (Body.mk None None None (Some (NumText "250")) None None None None
                         None None None ∅)
                None "2024-04-01T10:00:00.000Z") as Hupd.
  destruct (Deployed.applyUpdate contratado 1 _ None _) as [p|e] eqn:Hp;
    [|by vm_compute in Hp].
  exists p. split; [reflexivity|].
  destruct (Hupd p eq_refl) as (Hv & _).
  rewrite (Hv "250"); [by vm_compute|reflexivity|discriminate].
Defined.

(** C8 as stated fails: an update without a [value] key keeps the stored
    100 and does not set 0. *)
Lemma numeric_default_counterexample :
  Body.value (comLog true) = None
  ∧ ∃ p, Deployed.applyUpdate contratado 1 (comLog true) None
                              "2024-04-01T10:00:00.000Z" = Ok p
         ∧ Process.value p = Some (Num 100)
         ∧ PrimFloat.eqb 100 0 = false.
Proof. split; [done|]. eexists. repeat split; by vm_compute. Qed.

(** An empty text is not parsed by the update either: it is merged as it is. *)
Lemma empty_value_is_merged :
  ∃ p, Deployed.applyUpdate contratado 1
         (Body.mk None None None (Some (NumText "")) None None None None
                  None None None ∅)
         None "2024-04-01T10:00:00.000Z" = Ok p
       ∧ Process.value p = Some (NumText "").
Proof. eexists. split; by vm_compute. Qed.

(** In server.js a missing [value] becomes NaN on creation, and
    [purchasedValue] is stored as it came. *)
Lemma server_js_createProcess_numbers `{JSRuntime} body files now ms p :
  ServerJs.createProcess body files now ms = Ok p →
  (Body.value body = None → Process.value p = Some (Num nan))
  ∧ Process.purchasedValue p = Body.purchasedValue body.
Proof.
  unfold ServerJs.createProcess.
  destruct (decodeLocation (Body.location body)) as [[l|]|]; try done.
  intros [= <-]. simpl. split; [by intros ->|done].
Qed.

Lemma missing_location_throws_witness :
  ServerJs.applyUpdate legado 7 (novaLocation "A" "X" true) None
                       "2024-04-01T10:00:00.000Z" = Throw TypeError
  ∧ Deployed.applyUpdate legado 7 (novaLocation "A" "X" true) None
                         "2024-04-01T10:00:00.000Z" = Throw TypeError.
Proof.
  destruct (missing_location_throws legado 7 (novaLocation "A" "X" true) None
              "2024-04-01T10:00:00.000Z" (Location.mk (Some "A") (Some "X")))
    as [Hs Hd]; [reflexivity..|].
  split; [exact Hs | by apply Hd].
Defined.

Lemma createProcess_requires_location_witness :
  (∃ e, AnyJSON.deployed_post [contratado] (locationText "null" true) None
          "2024-04-01T10:00:00.000Z" 1711965600000
        = ([contratado], Throw e))
  ∧ (∃ e, AnyJSON.server_js_post [contratado] (locationText "null" true) None
            "2024-04-01T10:00:00.000Z" 1711965600000
          = ([contratado], Throw e)).
Proof.
  apply (proj1 (createProcess_requires_location [contratado]
                  (locationText "null" true) None
                  "2024-04-01T10:00:00.000Z" 1711965600000)).
  right. exists "null". split; [reflexivity|]. right. reflexivity.
Defined.

(** An object without keys and the text [123] are both accepted, and seed
    the location history with an entry that has neither sector nor
    responsible. *)
Lemma createProcess_location_counterexample :
  ∃ p q,
    AnyJSON.deployed_post [contratado]
      (Body.mk None (Some "Planejamento")
               (Some (LocObj (Location.mk None None)))
               None None None None None None None None ∅)
      None "2024-04-01T10:00:00.000Z" 1711965600000
    = ([contratado; p], Ok p)
    ∧ Process.locationHistory p
      = Some [LocationEntry.mk None None "2024-04-01T10:00:00.000Z" None]
    ∧ AnyJSON.deployed_post [contratado] (locationText "123" true) None
        "2024-04-01T10:00:00.000Z" 1711965600000
      = ([contratado; q], Ok q)
    ∧ Process.locationHistory q
      = Some [LocationEntry.mk None None "2024-04-01T10:00:00.000Z" None].
Proof. do 2 eexists. repeat split; reflexivity. Qed.

(** ** The scenarios of the spec, run on the reference runtime *)

(** Repair targeting: the entry that starts the evening before the contract
    date is moved to midday UTC of that date, and counted. *)
Example repair_targeting :
  Ajustar.repairContractDates [contratado]
  = Ajustar.Returned
      [Process.set_history
         (Some [HistoryEntry.mk (Some "Planejamento") "2024-03-01T09:00:00.000Z"
                                (Some "2024-03-14T23:00:00.000Z");
                HistoryEntry.mk (Some "Contratado") "2024-03-15T12:00:00.000Z" None])
         contratado] 1.
Proof. by vm_compute. Qed.

(** A contract date that is no calendar date stops the loop: the process
    before it was corrected in memory, and the script writes nothing. *)
Example repair_stops_on_invalid_date :
  (∃ data, Ajustar.repairContractDates [contratado; semData]
           = Ajustar.Threw RangeError data)
  ∧ Ajustar.ajustarDatasDeContratacao [contratado; semData] = [contratado; semData].
Proof. split; [eexists|]; by vm_compute. Qed.

(** Full lifecycle: creation in "Draft" at A/X, a change of phase, then a
    change of location. *)
Example lifecycle :
  ∃ p0 p1 p2,
    Deployed.createProcess
      (Body.mk None (Some "Draft")
               (Some (LocText (String.append "{"
                  (String.append (quoted "sector") (String.append ":"
                  (String.append (quoted "A") (String.append ","
                  (String.append (quoted "responsible") (String.append ":"
                  (String.append (quoted "X") "}"))))))))))
               (Some (NumText "1500")) None None None None None None None ∅)
      None "2024-01-01T00:00:00.000Z" 1704067200000 = Ok p0
    ∧ Process.history p0
      = Some [HistoryEntry.mk (Some "Draft") "2024-01-01T00:00:00.000Z" None]
    ∧ Process.value p0 = Some (Num 1500)
    ∧ Process.purchasedValue p0 = Some (Num 0)
    ∧ Deployed.applyUpdate p0 1704067200000 (novaFase "Review" true) None
                           "2024-01-02T00:00:00.000Z" = Ok p1
    ∧ Process.history p1
      = Some [HistoryEntry.mk (Some "Draft") "2024-01-01T00:00:00.000Z"
                              (Some "2024-01-02T00:00:00.000Z");
              HistoryEntry.mk (Some "Review") "2024-01-02T00:00:00.000Z" None]
    ∧ Deployed.applyUpdate p1 1704067200000 (novaLocation "B" "Y" true) None
                           "2024-01-03T00:00:00.000Z" = Ok p2
    ∧ Process.history p2 = Process.history p1
    ∧ Process.locationHistory p2
      = Some [LocationEntry.mk (Some "A") (Some "X") "2024-01-01T00:00:00.000Z"
                               (Some "2024-01-03T00:00:00.000Z");
              LocationEntry.mk (Some "B") (Some "Y") "2024-01-03T00:00:00.000Z" None].
Proof. do 3 eexists. repeat split; by vm_compute. Qed.

(** No-op when unchanged: the same phase and the same location, with the
    flag on, leave both histories as they were. *)
Example unchanged_is_noop :
  ∃ p, Deployed.applyUpdate contratado 1
         (Body.mk None (Some "Contratado")
                  (Some (LocObj (Location.mk (Some "A") (Some "X"))))
                  None None None None (Some (FlagText "true")) None None None ∅)
         None "2024-04-01T10:00:00.000Z" = Ok p
       ∧ Process.history p = Process.history contratado
       ∧ Process.locationHistory p = Process.locationHistory contratado.
Proof. eexists. repeat split; by vm_compute. Qed.

(** Attachment merge: one stored attachment and two uploaded files. *)
Example attachment_merge :
  ∃ p, Deployed.applyUpdate
         (Process.mk 9 (Some "Draft") None None None None None None
            (Some [Attachment.mk "1-a.pdf" "a.pdf" "uploads/1-a.pdf"])
            None None ∅)
         9 noBody
         (Some [Attachment.mk "2-b.pdf" "b.pdf" "uploads/2-b.pdf";
                Attachment.mk "3-c.pdf" "c.pdf" "uploads/3-c.pdf"])
         "2024-04-01T10:00:00.000Z" = Ok p
       ∧ Process.attachments p
         = Some [Attachment.mk "1-a.pdf" "a.pdf" "uploads/1-a.pdf";
                 Attachment.mk "2-b.pdf" "b.pdf" "uploads/2-b.pdf";
                 Attachment.mk "3-c.pdf" "c.pdf" "uploads/3-c.pdf"].
Proof. eexists. split; by vm_compute. Qed.

(** A body that brings a [history] key defeats the open-interval property
    too, on a process whose histories end in an open entry. *)
Example history_key_replaces_tracking :
  wellFormed contratado = true ∧ openEnded contratado = true
  ∧ ∃ p, Deployed.applyUpdate contratado 1 (semHistorico true) None
                              "2024-04-01T10:00:00.000Z" = Ok p
         ∧ openCount HistoryEntry.endDate (historyOf p) = 0%nat.
Proof. split; [|split]; [by vm_compute..|]. eexists. split; by vm_compute. Qed.

(** * Further properties of the code *)

(** ** More on histories *)

Section MoreHistoryFacts.
Context {E : Type} (startOf : E → string) (endOf : E → option string).
Context (close : string → E → E).
Hypothesis close_end : ∀ now e, endOf (close now e) = Some now.
Hypothesis close_start : ∀ now e, startOf (close now e) = startOf e.
Implicit Types (h pre : list E) (e : E).

Lemma openCount_all_closed pre :
  Forall (λ x, endOf x ≠ None) pre → openCount endOf pre = 0%nat.
Proof.
  intros Hc. unfold openCount. rewrite filter_none; [done|].
  eapply Forall_impl; [exact Hc|]. intros x Hx. unfold isOpen.
  by rewrite bool_decide_eq_false_2.
Qed.

Lemma oneOpen_oneOpenLast h : oneOpen endOf h → oneOpenLast endOf h.
Proof.
  intros (pre & e & -> & He & Hpre). split.
  - rewrite (openCount_app endOf), (openCount_all_closed _ Hpre).
    by rewrite (openCount_one endOf _ He).
  - exists e. by rewrite last_snoc.
Qed.

Lemma oneOpen_push now h new :
  oneOpen endOf h → endOf new = None →
  oneOpen endOf (closeLast (close now) h ++ [new]).
Proof.
  intros (pre & e & -> & He & Hpre) Hn.
  rewrite (closeLast_snoc close). exists (pre ++ [close now e]), new.
  repeat split; [done|]. apply Forall_app. split; [done|].
  constructor; [|done]. by rewrite close_end.
Qed.

Lemma ascending_snoc pre a b :
  ascending startOf (pre ++ [a]) = true →
  String.leb (startOf a) (startOf b) = true →
  ascending startOf (pre ++ [a; b]) = true.
Proof.
  intros Ha Hab. induction pre as [|x pre IH]; simpl in *.
  - by rewrite Hab.
  - destruct pre as [|y pre]; simpl in *.
    + apply andb_prop in Ha as [-> _]. by rewrite Hab.
    + apply andb_prop in Ha as [-> Ha]. by apply IH.
Qed.

Lemma ascending_close now pre a :
  ascending startOf (pre ++ [a]) = true →
  ascending startOf (pre ++ [close now a]) = true.
Proof.
  intros Ha. induction pre as [|x pre IH]; simpl in *; [done|].
  destruct pre as [|y pre]; simpl in *.
  - by rewrite close_start.
  - apply andb_prop in Ha as [-> Ha]. by apply IH.
Qed.

(** Closing the last entry at a time that is not before its start, and
    pushing an entry that starts then, keeps the order and the closed
    intervals. *)
Lemma push_keeps_order now pre e new :
  ascending startOf (pre ++ [e]) = true →
  intervals startOf endOf (pre ++ [e]) = true →
  String.leb (startOf e) now = true → startOf new = now →
  ascending startOf (closeLast (close now) (pre ++ [e]) ++ [new]) = true
  ∧ intervals startOf endOf (closeLast (close now) (pre ++ [e]) ++ [new]) = true.
Proof.
  intros Ha Hi Hle Hn. rewrite (closeLast_snoc close), <- app_assoc. simpl. split.
  - apply ascending_snoc; [by apply ascending_close|].
    by rewrite close_start, Hn.
  - unfold intervals in *. rewrite removelast_snoc in Hi.
    replace (pre ++ [close now e; new]) with ((pre ++ [close now e]) ++ [new])
      by by rewrite <- app_assoc.
    rewrite removelast_snoc, forallb_app, Hi. simpl.
    unfold closedInterval. by rewrite close_end, close_start, Hle.
Qed.

Lemma push_longer now h new : closeLast (close now) h ++ [new] ≠ h.
Proof.
  intros Heq. apply (f_equal length) in Heq.
  rewrite length_app, (closeLast_length close) in Heq. simpl in Heq. lia.
Qed.

End MoreHistoryFacts.

(** ** Creation, and what updates keep *)

Section LifeFacts.
Context {rt : JSRuntime}.

Abbreviation hStart' := HistoryEntry.startDate.
Abbreviation hEnd' := HistoryEntry.endDate.
Abbreviation lStart' := LocationEntry.startDate.
Abbreviation lEnd' := LocationEntry.endDate.

Lemma createProcess_shape body files now ms p :
  Deployed.createProcess body files now ms = Ok p
  ∨ ServerJs.createProcess body files now ms = Ok p →
  ∃ l, Process.location p = Some l
       ∧ Process.fase p = Body.fase body
       ∧ Process.id p = ms
       ∧ Process.creationDate p = Some now
       ∧ Process.attachments p = Some (default [] files)
       ∧ Process.history p = Some [HistoryEntry.mk (Body.fase body) now None]
       ∧ Process.locationHistory p
         = Some [LocationEntry.mk (Location.sector l) (Location.responsible l)
                                  now None].
Proof.
  unfold Deployed.createProcess, ServerJs.createProcess.
  destruct (decodeLocation (Body.location body)) as [[l|]|];
    intros [Hp|Hp]; try done; injection Hp as <-; by exists l.
Qed.

Lemma created_oneOpen body files now ms p :
  Deployed.createProcess body files now ms = Ok p
  ∨ ServerJs.createProcess body files now ms = Ok p →
  oneOpen hEnd' (historyOf p) ∧ oneOpen lEnd' (locationHistoryOf p).
Proof.
  intros (l & _ & _ & _ & _ & _ & Hh & Hlh)%createProcess_shape.
  unfold historyOf, locationHistoryOf. rewrite Hh, Hlh. simpl. split.
  - by exists [], (HistoryEntry.mk (Body.fase body) now None).
  - by exists [], (LocationEntry.mk (Location.sector l) (Location.responsible l)
                                    now None).
Qed.

(** X1. Either server creates a process that satisfies the data model: the
    order, invariants 1 to 3, and an open entry at the end of each history;
    its [id] is the clock in milliseconds, its [creationDate] the clock. *)
Theorem created_is_well_formed body files now ms p :
  Deployed.createProcess body files now ms = Ok p
  ∨ ServerJs.createProcess body files now ms = Ok p →
  wellFormed p = true ∧ openEnded p = true
  ∧ oneOpen hEnd' (historyOf p) ∧ oneOpen lEnd' (locationHistoryOf p)
  ∧ length (historyOf p) = 1%nat ∧ length (locationHistoryOf p) = 1%nat
  ∧ Process.id p = ms ∧ Process.creationDate p = Some now.
Proof.
  intros (l & Hl & Hf & Hid & Hc & _ & Hh & Hlh)%createProcess_shape.
  unfold wellFormed, openEnded, historyOf, locationHistoryOf.
  rewrite Hh, Hlh, Hl, Hf. simpl. destruct l as [s r]. simpl.
  rewrite !bool_decide_eq_true_2 by done. repeat split; try done.
  - by exists [], (HistoryEntry.mk (Body.fase body) now None).
  - by exists [], (LocationEntry.mk s r now None).
Qed.

(** One call keeps each history in the shape "closed entries, then one
    open entry". *)
Lemma stored_oneOpen p c :
  noHistoryKeys (Call.body c) →
  oneOpen hEnd' (historyOf p) ∧ oneOpen lEnd' (locationHistoryOf p) →
  oneOpen hEnd' (historyOf (stored p c))
  ∧ oneOpen lEnd' (locationHistoryOf (stored p c)).
Proof.
  intros Hkeys [Hh Hl]. unfold stored.
  destruct (Deployed.applyUpdate p _ _ _ _) as [p'|] eqn:Hp; [|done].
  apply applyUpdate_inv in Hp as (nl & lh & _ & Ht & ->).
  destruct (merge_histories p (Call.processId c) (Call.body c)
              (parseIfTruthy (Body.value (Call.body c)))
              (parseIfTruthy (Body.purchasedValue (Call.body c))) nl
              (Deployed.trackFase p (Call.body c) (Call.now c)) lh
              (uploaded (Call.files c)) Hkeys) as [-> ->].
  split.
  - destruct (trackFase_cases p (Call.body c) (Call.now c)) as [->|(_ & _ & _ & ->)];
      [done|]. by apply (oneOpen_push hEnd' closeEntry).
  - destruct (trackLocation_cases _ _ _ _ _ Ht) as [->|(_ & l & _ & ->)]; [done|].
    by apply (oneOpen_push lEnd' closeLocation).
Qed.

Lemma states_oneOpen p calls :
  Forall (λ c, noHistoryKeys (Call.body c)) calls →
  oneOpen hEnd' (historyOf p) ∧ oneOpen lEnd' (locationHistoryOf p) →
  Forall (λ q, oneOpen hEnd' (historyOf q) ∧ oneOpen lEnd' (locationHistoryOf q))
         (states p calls).
Proof.
  intros Hcalls. revert p. induction Hcalls as [|c calls Hc _ IH]; intros p Hp.
  - simpl. constructor; [done|constructor].
  - simpl. constructor; [done|]. by apply IH, stored_oneOpen.
Qed.

(** X2. From creation on, through any sequence of PUT calls on part_000 whose
    bodies bring no history of their own, each history always has exactly
    one open entry, its last. *)
Theorem open_interval_from_creation body files now ms p calls :
  Deployed.createProcess body files now ms = Ok p →
  Forall (λ c, noHistoryKeys (Call.body c)) calls →
  Forall (λ q, oneOpenLast hEnd' (historyOf q)
               ∧ oneOpenLast lEnd' (locationHistoryOf q))
         (states p calls).
Proof.
  intros Hp Hcalls.
  pose proof (created_oneOpen body files now ms p (or_introl Hp)) as Hone.
  eapply Forall_impl; [by apply states_oneOpen|].
  intros q [Hq1 Hq2]. split; by apply oneOpen_oneOpenLast.
Qed.

(** X3. On such a process the only exception a PUT of part_000 can raise is
    the [SyntaxError] of a location that does not decode: the [TypeError] at
    [lastLocationEntry.sector] needs an empty location history. *)
Theorem created_never_type_error body files now ms p calls q pid u fs t e :
  Deployed.createProcess body files now ms = Ok p →
  Forall (λ c, noHistoryKeys (Call.body c)) calls →
  q ∈ states p calls →
  Deployed.applyUpdate q pid u fs t = Throw e →
  e = SyntaxError
  ∧ ∃ s, Body.location u = Some (LocText s) ∧ JSON_parse s = None.
Proof.
  intros Hp Hcalls Hq He.
  pose proof (created_oneOpen body files now ms p (or_introl Hp)) as Hone.
  pose proof (states_oneOpen p calls Hcalls Hone) as Hall.
  destruct (proj1 (Forall_forall _ _) Hall q Hq) as [_ (pre & le & Hlh & _)].
  unfold Deployed.applyUpdate in He.
  destruct (Body.location u) as [[s|l]|] eqn:Hu; simpl in He.
  - destruct (JSON_parse s) as [l|] eqn:Hs; simpl in He.
    + unfold mbind, result_bind in He.
      destruct (trackLocation_total q u (Some l) t) as [lh Ht].
      { rewrite Hlh. by destruct pre. }
      by rewrite Ht in He.
    + injection He as <-. split; [done|]. by exists s.
  - unfold mbind, result_bind in He.
    destruct (trackLocation_total q u (Some l) t) as [lh Ht].
    { rewrite Hlh. by destruct pre. }
    by rewrite Ht in He.
  - unfold mbind, result_bind in He.
    destruct (trackLocation_total q u None t) as [lh Ht].
    { rewrite Hlh. by destruct pre. }
    by rewrite Ht in He.
Qed.

Lemma last_app_singleton {A} (l : list A) x : last (l ++ [x]) = Some x.
Proof. apply last_snoc. Qed.

(** With [logHistory] on, a clock that is not behind the last intervals, a
    phase that is not the empty text and no history in the body, the handler
    keeps the data model whenever the location it decodes is an object. *)
Lemma update_of_object_keeps_data_model p pid u files now p' :
  wellFormed p = true → openEnded p = true →
  Deployed.logHistory u = true → noHistoryKeys u →
  Body.fase u ≠ Some "" → clockAhead p now = true →
  Deployed.applyUpdate p pid u files now = Ok p' →
  wellFormed p' = true ∧ openEnded p' = true.
Proof.
  intros Hwf Hopen Hlog Hkeys Hfase Hclock Hp.
  apply applyUpdate_inv in Hp as (nl & lh & _ & Ht & ->).
  unfold wellFormed, openEnded, clockAhead in *.
  destruct (merge_histories p pid u (parseIfTruthy (Body.value u))
              (parseIfTruthy (Body.purchasedValue u)) nl
              (Deployed.trackFase p u now) lh (uploaded files) Hkeys) as [-> ->].
  destruct (last (historyOf p)) as [e|] eqn:He; [|done].
  destruct (last (locationHistoryOf p)) as [le|] eqn:Hle; [|done].
  apply last_Some in He as [pre He]. apply last_Some in Hle as [lpre Hle].
  apply andb_prop in Hwf as [[[[[Hf Hloc]%andb_prop Ha]%andb_prop Hla]%andb_prop Hi]%andb_prop Hli].
  apply andb_prop in Hopen as [Ho Hlo]. apply andb_prop in Hclock as [Hc Hlc].
  apply bool_decide_eq_true in Hf, Hloc.
  rewrite He in Ha, Hi. rewrite Hle in Hla, Hli.
  (* the phase side *)
  assert (Hphase : ∃ e', last (Deployed.trackFase p u now) = Some e'
            ∧ HistoryEntry.fase e' = spread (Body.fase u) (Process.fase p)
            ∧ isOpen hEnd' e' = true
            ∧ ascending hStart' (Deployed.trackFase p u now) = true
            ∧ intervals hStart' hEnd' (Deployed.trackFase p u now) = true).
  { unfold Deployed.trackFase. fold (historyOf p). rewrite Hlog. simpl.
    destruct (Body.fase u) as [f|] eqn:Hu; simpl.
    - rewrite bool_decide_eq_false_2 by congruence. simpl.
      case_bool_decide as Hd.
      + exists (HistoryEntry.mk (Some f) now None). unfold pushFase. rewrite He.
        rewrite last_snoc. repeat split.
        * by eapply (push_keeps_order hStart' hEnd' closeEntry).
        * by eapply (push_keeps_order hStart' hEnd' closeEntry).
      + exists e. rewrite He, last_snoc. repeat split; try done.
        simpl. by rewrite Hf, <- Hd.
    - exists e. rewrite He, last_snoc. by repeat split. }
  (* the location side *)
  assert (Hlocation : ∃ le', last lh = Some le'
            ∧ spread nl (Process.location p)
              = Some (Location.mk (LocationEntry.sector le') (LocationEntry.responsible le'))
            ∧ isOpen lEnd' le' = true
            ∧ ascending lStart' lh = true ∧ intervals lStart' lEnd' lh = true).
  { unfold Deployed.trackLocation in Ht. fold (locationHistoryOf p) in Ht.
    rewrite Hlog, Hle, lastEntry_snoc in Ht. destruct nl as [[s r]|]; simpl in *.
    - destruct (bool_decide_reflect (s ≠ LocationEntry.sector le)) as [Hs|Hs];
        destruct (bool_decide_reflect (r ≠ LocationEntry.responsible le)) as [Hr|Hr];
        simpl in Ht; injection Ht as <-.
      1-3: exists (LocationEntry.mk s r now None); unfold pushLocation;
        rewrite last_snoc; repeat split;
        by eapply (push_keeps_order lStart' lEnd' closeLocation).
      apply dec_stable in Hs, Hr. subst s r.
      exists le. rewrite last_snoc. by repeat split.
    - injection Ht as <-. exists le. rewrite last_snoc. by repeat split. }
  destruct Hphase as (e' & -> & Hf' & -> & -> & ->).
  destruct Hlocation as (le' & -> & Hloc' & -> & -> & ->). simpl.
  by rewrite !bool_decide_eq_true_2.
Qed.

(** X5. With [logHistory] off, a PUT that returns and whose body brings
    another phase and no history of its own stores the phase without touching
    the history: from a well-formed process the result breaks invariant 1. *)
Theorem flag_off_breaks_invariant_1 p pid u files now p' :
  wellFormed p = true →
  Deployed.logHistory u = false → noHistoryKeys u →
  is_Some (Body.fase u) → Body.fase u ≠ Process.fase p →
  Deployed.applyUpdate p pid u files now = Ok p' →
  Process.fase p' = Body.fase u
  ∧ historyOf p' = historyOf p
  ∧ wellFormed p' = false.
Proof.
  intros Hwf Hlog Hkeys [f Hf] Hdiff Hp.
  apply applyUpdate_inv in Hp as (nl & lh & _ & Ht & ->).
  unfold wellFormed in *.
  destruct (merge_histories p pid u (parseIfTruthy (Body.value u))
              (parseIfTruthy (Body.purchasedValue u)) nl
              (Deployed.trackFase p u now) lh (uploaded files) Hkeys) as [-> ->].
  rewrite (trackFase_off _ _ _ Hlog). simpl. rewrite Hf. simpl.
  repeat split.
  destruct (last (historyOf p)) as [e|]; [|done].
  destruct (last (locationHistoryOf p)) as [le|]; [|done].
  apply andb_prop in Hwf as [[[[[He _]%andb_prop _]%andb_prop _]%andb_prop _]%andb_prop _].
  apply bool_decide_eq_true in He.
  destruct (last lh); [|done].
  rewrite bool_decide_eq_false_2; [done|]. rewrite He. congruence.
Qed.

(** The phase block changes the history exactly when the flag is on and the
    body brings a phase that is not empty and differs from the stored one. *)
Lemma trackFase_changes_iff p u now :
  Deployed.trackFase p u now ≠ historyOf p ↔
  Deployed.logHistory u = true ∧ truthy_str (Body.fase u) = true
  ∧ Body.fase u ≠ Process.fase p.
Proof.
  unfold Deployed.trackFase. fold (historyOf p).
  destruct (Deployed.logHistory u); simpl;
    [|split; [by intros []|by intros [? _]]].
  destruct (truthy_str (Body.fase u)); simpl;
    [|split; [by intros []|by intros (_ & ? & _)]].
  case_bool_decide as Hdiff; [|split; [by intros []|by intros (_ & _ & ?)]].
  split; [done|]. intros _. apply (push_longer closeEntry).
Qed.

(** The location block, when it returns, changes the history exactly when
    the flag is on and a truthy location reads another sector or responsible
    than the last entry. *)
Lemma trackLocation_changes_iff p u nl now lh :
  Deployed.trackLocation p u nl now = Ok lh →
  lh ≠ locationHistoryOf p ↔
  Deployed.logHistory u = true
  ∧ ∃ l le, nl = Some l ∧ last (locationHistoryOf p) = Some le
            ∧ (Location.sector l ≠ LocationEntry.sector le
               ∨ Location.responsible l ≠ LocationEntry.responsible le).
Proof.
  intros Ht.
  unfold Deployed.trackLocation in Ht. fold (locationHistoryOf p) in Ht.
  rewrite lastEntry_last in Ht.
  destruct (Deployed.logHistory u);
    [|injection Ht as <-; split; [by intros []|by intros [? _]]].
  destruct nl as [l|];
    [|injection Ht as <-; split; [by intros []|by intros (_ & ? & ? & ? & _)]].
  destruct (last (locationHistoryOf p)) as [le|]; [|done].
  destruct (bool_decide_reflect (Location.sector l ≠ LocationEntry.sector le)) as [Hs|Hs];
    destruct (bool_decide_reflect
                (Location.responsible l ≠ LocationEntry.responsible le)) as [Hr|Hr];
    simpl in Ht; injection Ht as <-.
  1-3: split; [intros _; split; [done|]; exists l, le; repeat split; auto
              |intros _; apply (push_longer closeLocation)].
  split; [done|]. intros (_ & l' & le' & [= <-] & [= <-] & [?|?]); done.
Qed.

End LifeFacts.

(** ** Exceptions, attachments, and the two servers side by side *)

Section UpdateFacts.
Context {rt : JSRuntime}.

Lemma decodeLocation_Throw l e :
  decodeLocation l = Throw e ↔
  e = SyntaxError ∧ ∃ s, l = Some (LocText s) ∧ JSON_parse s = None.
Proof.
  unfold decodeLocation. destruct l as [[s|o]|].
  - destruct (JSON_parse s) eqn:Hs.
    + split; [done|]. intros (_ & s' & [= <-] & Hs'). congruence.
    + split; [intros [= <-]; eauto|]. by intros [-> _].
  - split; [done|]. by intros (_ & s' & ? & _).
  - split; [done|]. by intros (_ & s' & ? & _).
Qed.

Lemma applyUpdate_id_attachments p pid u files now p' :
  Deployed.applyUpdate p pid u files now = Ok p'
  ∨ ServerJs.applyUpdate p pid u files now = Ok p' →
  Process.id p' = pid
  ∧ Process.attachments p'
    = Some (default [] (Process.attachments p) ++ default [] files).
Proof.
  intros [Hp|Hp].
  - by apply applyUpdate_inv in Hp as (nl & lh & _ & _ & ->).
  - unfold ServerJs.applyUpdate in Hp.
    destruct (decodeLocation (Body.location u)) as [nl|]; [|done].
    unfold mbind, result_bind in Hp.
    destruct (ServerJs.trackLocation p nl now) as [lh|]; [|done].
    by injection Hp as <-.
Qed.

(** X9. Whatever the bodies bring (an [id], an [attachments] key, histories),
    along any sequence of PUT calls the stored attachments only grow at the
    end: at each call the list before is a prefix of the list after, and a
    call that returns appends exactly the uploaded files and stores the
    [id] of the route. *)
Theorem attachments_append_only p calls k c before after :
  calls !! k = Some c →
  states p calls !! k = Some before → states p calls !! S k = Some after →
  default [] (Process.attachments before)
    `prefix_of` default [] (Process.attachments after)
  ∧ (∀ p', Deployed.applyUpdate before (Call.processId c) (Call.body c)
                                (Call.files c) (Call.now c) = Ok p' →
       after = p' ∧ Process.id after = Call.processId c
       ∧ default [] (Process.attachments after)
         = default [] (Process.attachments before) ++ default [] (Call.files c)).
Proof.
  revert p k. induction calls as [|c0 calls IH]; intros p k Hc Hb Ha; [done|].
  destruct k as [|k]; simpl in *.
  - injection Hc as ->. injection Hb as <-. rewrite states_head in Ha.
    injection Ha as <-. unfold stored.
    destruct (Deployed.applyUpdate p _ _ _ _) as [p'|] eqn:Hp.
    + destruct (applyUpdate_id_attachments _ _ _ _ _ _ (or_introl Hp)) as [Hid Hat].
      split.
      * rewrite Hat. simpl. by apply prefix_app_r.
      * intros ? [= <-]. rewrite Hat. done.
    + split; [done|]. intros ? [=].
  - by eapply IH.
Qed.

(** X10. With [logHistory] on and a stored location that agrees with the last
    entry of the location history, a PUT that returns on part_000 returns
    on server.js too, with the same two histories and the same fields; only
    [purchasedValue] is merged unparsed by server.js. *)
Theorem servers_agree_when_flag_on p pid u files now p1 le :
  Deployed.logHistory u = true →
  last (locationHistoryOf p) = Some le →
  Process.location p
  = Some (Location.mk (LocationEntry.sector le) (LocationEntry.responsible le)) →
  Deployed.applyUpdate p pid u files now = Ok p1 →
  ∃ p2, ServerJs.applyUpdate p pid u files now = Ok p2
        ∧ historyOf p2 = historyOf p1
        ∧ locationHistoryOf p2 = locationHistoryOf p1
        ∧ Process.id p2 = Process.id p1
        ∧ Process.fase p2 = Process.fase p1
        ∧ Process.location p2 = Process.location p1
        ∧ Process.value p2 = Process.value p1
        ∧ Process.contractDate p2 = Process.contractDate p1
        ∧ Process.attachments p2 = Process.attachments p1
        ∧ Process.other p2 = Process.other p1
        ∧ Process.purchasedValue p2
          = spread (Body.purchasedValue u) (Process.purchasedValue p).
Proof.
  intros Hlog Hle Hloc Hp.
  apply applyUpdate_inv in Hp as (nl & lh & Hd & Ht & ->).
  unfold ServerJs.applyUpdate. rewrite Hd. unfold mbind, result_bind.
  unfold Deployed.trackLocation in Ht. fold (locationHistoryOf p) in Ht.
  rewrite Hlog, lastEntry_last, Hle in Ht.
  unfold ServerJs.trackLocation. rewrite Hloc. simpl.
  assert (Hh : historyOf
                 (Process.set_history
                    (spread (Body.history u) (ServerJs.trackFase p u now)) p)
               = default [] (spread (Body.history u)
                               (Some (Deployed.trackFase p u now)))).
  { unfold historyOf. simpl. destruct (Body.history u); [done|]. simpl.
    unfold ServerJs.trackFase, Deployed.trackFase. rewrite Hlog. simpl.
    by destruct (_ && _). }
  unfold historyOf in Hh. simpl in Hh.
  destruct nl as [l|].
  - destruct (_ || _); injection Ht as <-; eexists; (split; [done|]);
      unfold historyOf, locationHistoryOf; simpl; rewrite Hh; repeat split.
    unfold locationHistoryOf in Hle.
    destruct (Body.locationHistory u); [done|]. simpl.
    destruct (Process.locationHistory p); done.
  - injection Ht as <-. eexists. split; [done|].
    unfold historyOf, locationHistoryOf. simpl. rewrite Hh. repeat split.
    destruct (Body.locationHistory u); [done|]. simpl.
    destruct (Process.locationHistory p); done.
Qed.

End UpdateFacts.

(** ** A location text that decodes to any JSON value *)

Section AnyLocationFacts.
Context {rt : JSRuntime} {jr : AnyJSON.Runtime}.

Lemma any_decodeLocation_Throw l e :
  AnyJSON.decodeLocation l = Throw e ↔
  e = SyntaxError ∧ ∃ s, l = Some (LocText s) ∧ AnyJSON.parse s = None.
Proof.
  unfold AnyJSON.decodeLocation. destruct l as [[s|o]|].
  - destruct (AnyJSON.parse s) eqn:Hs.
    + split; [done|]. intros (_ & s' & [= <-] & Hs'). congruence.
    + split; [intros [= <-]; eauto|]. by intros [-> _].
  - split; [done|]. by intros (_ & s' & ? & _).
  - split; [done|]. by intros (_ & s' & ? & _).
Qed.

(** [newLocation && ...] goes on for an object and for a truthy primitive,
    of which both keys read [undefined]. *)
Lemma truthyLocation_Some v l :
  AnyJSON.truthyLocation v = Some l ↔
  v = Some (AnyJSON.Object l)
  ∨ (v = Some (AnyJSON.Primitive true) ∧ l = Location.mk None None).
Proof.
  destruct v as [[|[]|o]|]; simpl; split.
  all: try (intros [= <-]; by auto).
  all: try (intros [[=]|[[=] _]]; fail).
  - by intros [[=]|[_ ->]].
  - by intros [[= ->]|[[=] _]].
Qed.

Lemma truthyLocation_None v :
  AnyJSON.truthyLocation (Some v) = None ↔
  v = AnyJSON.Null ∨ v = AnyJSON.Primitive false.
Proof. destruct v as [|[]|o]; simpl; split; try done; auto; by intros [?|?]. Qed.

Lemma deployed_applyUpdate_inv p pid u files now p' :
  AnyJSON.deployed_applyUpdate p pid u files now = Ok p' →
  ∃ v lh,
    AnyJSON.decodeLocation (Body.location u) = Ok v
    ∧ Deployed.trackLocation p u (AnyJSON.truthyLocation v) now = Ok lh
    ∧ p' = AnyJSON.withLocation
             (AnyJSON.mergeLocation v (Process.location p))
             (merge p pid u (parseIfTruthy (Body.value u))
                    (parseIfTruthy (Body.purchasedValue u)) None
                    (Some (Deployed.trackFase p u now)) (Some lh) (uploaded files)).
Proof.
  unfold AnyJSON.deployed_applyUpdate. intros Hp.
  destruct (AnyJSON.decodeLocation (Body.location u)) as [v|]; [|done].
  unfold mbind, result_bind in Hp.
  destruct (Deployed.trackLocation p u (AnyJSON.truthyLocation v) now) as [lh|] eqn:Hl;
    [|done].
  injection Hp as <-. by exists v, lh.
Qed.

(** Where the location is an object, or text that decodes to an object or
    not at all, the handlers over any value are the handlers over objects. *)
Lemma createProcess_of_objects body files now ms :
  AnyJSON.objectOrRejected body →
  AnyJSON.deployed_createProcess body files now ms
  = @Deployed.createProcess AnyJSON.objectsOnly body files now ms
  ∧ AnyJSON.server_js_createProcess body files now ms
    = @ServerJs.createProcess AnyJSON.objectsOnly body files now ms.
Proof.
  intros Hobj.
  unfold AnyJSON.deployed_createProcess, AnyJSON.server_js_createProcess,
    Deployed.createProcess, ServerJs.createProcess, AnyJSON.decodeLocation,
    decodeLocation.
  destruct (Body.location body) as [[s|o]|] eqn:Hu; simpl; [|done..].
  destruct (AnyJSON.parse s) as [v|] eqn:Hs; [|done].
  by destruct (Hobj s v Hu Hs) as [l ->].
Qed.

Lemma applyUpdate_of_objects p pid u files now :
  AnyJSON.objectOrRejected u →
  AnyJSON.deployed_applyUpdate p pid u files now
  = @Deployed.applyUpdate AnyJSON.objectsOnly p pid u files now
  ∧ AnyJSON.server_js_applyUpdate p pid u files now
    = @ServerJs.applyUpdate AnyJSON.objectsOnly p pid u files now.
Proof.
  intros Hobj.
  unfold AnyJSON.deployed_applyUpdate, AnyJSON.server_js_applyUpdate,
    Deployed.applyUpdate, ServerJs.applyUpdate, AnyJSON.decodeLocation, decodeLocation.
  destruct (Body.location u) as [[s|o]|] eqn:Hu; simpl.
  - destruct (AnyJSON.parse s) as [v|] eqn:Hs; [|done].
    destruct (Hobj s v Hu Hs) as [l ->]. simpl.
    unfold mbind, result_bind. split.
    + by destruct (Deployed.trackLocation p u (Some l) now).
    + by destruct (ServerJs.trackLocation p (Some l) now).
  - unfold mbind, result_bind. split.
    + by destruct (Deployed.trackLocation p u (Some o) now).
    + by destruct (ServerJs.trackLocation p (Some o) now).
  - unfold mbind, result_bind. split.
    + by destruct (Deployed.trackLocation p u None now).
    + by destruct (ServerJs.trackLocation p None now).
Qed.

(** X4. With [logHistory] on, a clock that is not behind the last intervals, a
    phase that is not the empty text, no history in the body and a location
    that, if it came as text, decodes to an object, a PUT of part_000 keeps
    the data model: order, invariants 1 to 3, open ends. *)
Theorem update_keeps_data_model p pid u files now p' :
  wellFormed p = true → openEnded p = true →
  Deployed.logHistory u = true → noHistoryKeys u →
  Body.fase u ≠ Some "" → clockAhead p now = true →
  AnyJSON.objectOrRejected u →
  AnyJSON.deployed_applyUpdate p pid u files now = Ok p' →
  wellFormed p' = true ∧ openEnded p' = true.
Proof.
  intros Hwf Hopen Hlog Hkeys Hfase Hclock Hobj Hp.
  rewrite (proj1 (applyUpdate_of_objects p pid u files now Hobj)) in Hp.
  by eapply (@update_of_object_keeps_data_model AnyJSON.objectsOnly).
Qed.

(** X6. A PUT of part_000 that returns, with no history in the body, changes
    the phase history exactly when [logHistory] is on and the body brings a
    phase that is not empty and differs from the stored one; and the
    location history exactly when [logHistory] is on and the body brings a
    location that is truthy (an object, or a truthy primitive, whose keys
    read [undefined]) and whose sector or responsible differs from the last
    entry.  A location that decodes to [null] or to a falsy primitive
    changes no history. *)
Theorem histories_change_iff p pid u files now p' v :
  noHistoryKeys u →
  AnyJSON.decodeLocation (Body.location u) = Ok v →
  AnyJSON.deployed_applyUpdate p pid u files now = Ok p' →
  (historyOf p' ≠ historyOf p ↔
     Deployed.logHistory u = true ∧ truthy_str (Body.fase u) = true
     ∧ Body.fase u ≠ Process.fase p)
  ∧ (locationHistoryOf p' ≠ locationHistoryOf p ↔
       Deployed.logHistory u = true
       ∧ ∃ l le,
           (v = Some (AnyJSON.Object l)
            ∨ (v = Some (AnyJSON.Primitive true) ∧ l = Location.mk None None))
           ∧ last (locationHistoryOf p) = Some le
           ∧ (Location.sector l ≠ LocationEntry.sector le
              ∨ Location.responsible l ≠ LocationEntry.responsible le)).
Proof.
  intros Hkeys Hd Hp.
  apply deployed_applyUpdate_inv in Hp as (v' & lh & Hd' & Ht & ->).
  rewrite Hd in Hd'. injection Hd' as <-.
  destruct Hkeys as [Hh Hl].
  assert (Hhist : ∀ loc q, historyOf (AnyJSON.withLocation loc q) = historyOf q) by done.
  assert (Hloc : ∀ loc q, locationHistoryOf (AnyJSON.withLocation loc q)
                          = locationHistoryOf q) by done.
  rewrite Hhist, Hloc.
  destruct (merge_histories p pid u (parseIfTruthy (Body.value u))
              (parseIfTruthy (Body.purchasedValue u)) None
              (Deployed.trackFase p u now) lh (uploaded files) (conj Hh Hl)) as [-> ->].
  split; [apply trackFase_changes_iff|].
  rewrite (trackLocation_changes_iff _ _ _ _ _ Ht).
  split; intros (Hlog & l & le & Hv & Hrest); (split; [done|]); exists l, le;
    (split; [|done]); by apply truthyLocation_Some.
Qed.

(** X7. A PUT of part_000 throws in two cases only: the location text does not
    decode ([SyntaxError]), or [logHistory] is on, a truthy location came and
    the location history is missing or empty ([TypeError]).  A location that
    decodes to [null] or to a falsy primitive never throws. *)
Theorem deployed_put_throws_iff p pid u files now e :
  AnyJSON.deployed_applyUpdate p pid u files now = Throw e ↔
  (e = SyntaxError
   ∧ ∃ s, Body.location u = Some (LocText s) ∧ AnyJSON.parse s = None)
  ∨ (e = TypeError ∧ Deployed.logHistory u = true ∧ locationHistoryOf p = []
     ∧ ∃ v, AnyJSON.decodeLocation (Body.location u) = Ok (Some v)
            ∧ v ≠ AnyJSON.Null ∧ v ≠ AnyJSON.Primitive false).
Proof.
  unfold AnyJSON.deployed_applyUpdate.
  destruct (AnyJSON.decodeLocation (Body.location u)) as [v|e'] eqn:Hd;
    unfold mbind, result_bind.
  - assert (Hno : ¬ ∃ s, Body.location u = Some (LocText s) ∧ AnyJSON.parse s = None).
    { intros Hs.
      assert (Ht : AnyJSON.decodeLocation (Body.location u) = Throw SyntaxError)
        by by apply any_decodeLocation_Throw.
      congruence. }
    unfold Deployed.trackLocation. fold (locationHistoryOf p).
    rewrite lastEntry_last.
    destruct (Deployed.logHistory u).
    + destruct (AnyJSON.truthyLocation v) as [l|] eqn:Hv.
      * destruct (last (locationHistoryOf p)) as [le|] eqn:Hl.
        -- destruct (_ || _); (split; [done|]);
             intros [[_ Hs]|(_ & _ & Hnil & _)]; [done| |done|];
             rewrite Hnil in Hl; done.
        -- apply last_None in Hl. split.
           ++ intros [= <-]. right. repeat (split; [done|]).
              destruct v as [v|]; [|done]. exists v. split; [done|].
              split; intros ->; done.
           ++ intros [[_ Hs]|(-> & _)]; done.
      * split; [done|]. intros [[_ Hs]|(_ & _ & _ & v' & [= ->] & Hn & Hf)]; [done|].
        apply truthyLocation_None in Hv as [?|?]; done.
    + split; [done|]. intros [[_ Hs]|(_ & ? & _)]; done.
  - apply any_decodeLocation_Throw in Hd as [-> Hs]. split.
    + intros [= <-]. by left.
    + by intros [[-> _]|(_ & _ & _ & v & Hv & _)].
Qed.

(** X8. A PUT of server.js throws in two cases only: the location text does
    not decode ([SyntaxError]), or a truthy location came and the stored
    process has no location to compare it with ([TypeError]), whatever its
    location history.  A location that decodes to [null] or to a falsy
    primitive never throws. *)
Theorem server_js_put_throws_iff p pid u files now e :
  AnyJSON.server_js_applyUpdate p pid u files now = Throw e ↔
  (e = SyntaxError
   ∧ ∃ s, Body.location u = Some (LocText s) ∧ AnyJSON.parse s = None)
  ∨ (e = TypeError ∧ Process.location p = None
     ∧ ∃ v, AnyJSON.decodeLocation (Body.location u) = Ok (Some v)
            ∧ v ≠ AnyJSON.Null ∧ v ≠ AnyJSON.Primitive false).
Proof.
  unfold AnyJSON.server_js_applyUpdate.
  destruct (AnyJSON.decodeLocation (Body.location u)) as [v|e'] eqn:Hd;
    unfold mbind, result_bind.
  - assert (Hno : ¬ ∃ s, Body.location u = Some (LocText s) ∧ AnyJSON.parse s = None).
    { intros Hs.
      assert (Ht : AnyJSON.decodeLocation (Body.location u) = Throw SyntaxError)
        by by apply any_decodeLocation_Throw.
      congruence. }
    unfold ServerJs.trackLocation.
    destruct (AnyJSON.truthyLocation v) as [l|] eqn:Hv.
    + destruct (Process.location p) as [pl|] eqn:Hl.
      * destruct (_ || _); (split; [done|]); intros [[_ Hs]|(_ & ? & _)]; done.
      * split.
        -- intros [= <-]. right. repeat (split; [done|]).
           destruct v as [v|]; [|done]. exists v. split; [done|].
           split; intros ->; done.
        -- intros [[_ Hs]|(-> & _)]; done.
    + split; [done|]. intros [[_ Hs]|(_ & _ & v' & [= ->] & Hn & Hf)]; [done|].
      apply truthyLocation_None in Hv as [?|?]; done.
  - apply any_decodeLocation_Throw in Hd as [-> Hs]. split.
    + intros [= <-]. by left.
    + by intros [[-> _]|(_ & _ & v & Hv & _)].
Qed.

End AnyLocationFacts.

(** ** The routes on the stored array *)

Section StoreFacts.
Context {rt : JSRuntime}.

Lemma findIndex_Some pid processes i :
  Deployed.findIndex pid processes = Some i ↔
  ∃ q, processes !! i = Some q ∧ Process.id q = pid
       ∧ ∀ j y, processes !! j = Some y → (j < i)%nat → Process.id y ≠ pid.
Proof.
  unfold Deployed.findIndex. split.
  - destruct (list_find _ processes) as [[i' q]|] eqn:Hf; [|done].
    intros [= <-]. apply list_find_Some in Hf as (Hq & Hid & Hlt). eauto.
  - intros (q & Hq & Hid & Hlt).
    assert (Hf : list_find (λ p, Process.id p = pid) processes = Some (i, q))
      by by apply list_find_Some.
    by rewrite Hf.
Qed.

Lemma findIndex_None pid processes :
  Deployed.findIndex pid processes = None ↔
  Forall (λ q, Process.id q ≠ pid) processes.
Proof.
  unfold Deployed.findIndex.
  rewrite <- (list_find_None (λ p, Process.id p = pid)).
  destruct (list_find _ processes); simpl; split; done.
Qed.

Lemma find_findIndex pid processes :
  find pid processes
  = Deployed.findIndex pid processes ≫= λ i, processes !! i.
Proof.
  unfold find, Deployed.findIndex.
  destruct (list_find _ processes) as [[i q]|] eqn:Hf; [|done]. simpl.
  by apply list_find_Some in Hf as (-> & _).
Qed.

Lemma put_other_index processes pid body files now j q :
  processes !! j = Some q →
  Deployed.findIndex pid processes ≠ Some j →
  (Deployed.put processes pid body files now).1 !! j = Some q.
Proof.
  intros Hq Hne. unfold Deployed.put.
  destruct (Deployed.findIndex pid processes) as [i|]; [|done].
  destruct (processes !! i); [|done].
  destruct (Deployed.applyUpdate _ _ _ _ _); [|done]. simpl.
  rewrite list_lookup_insert_ne; [done|congruence].
Qed.

(** X11. PUT on the array: the identifiers stay where they are, only the first
    process with the [id] of the route can change, and the reply is the 404
    exactly when no process has that [id] (the array is then as it was). *)
Theorem put_frame processes pid body files now :
  Process.id <$> (Deployed.put processes pid body files now).1
  = Process.id <$> processes
  ∧ (∀ j q, processes !! j = Some q →
       Deployed.findIndex pid processes ≠ Some j →
       (Deployed.put processes pid body files now).1 !! j = Some q)
  ∧ ((Deployed.put processes pid body files now).2 = Deployed.NotFound ↔
     Forall (λ q, Process.id q ≠ pid) processes)
  ∧ (Forall (λ q, Process.id q ≠ pid) processes →
     (Deployed.put processes pid body files now).1 = processes)
  ∧ (∀ p', (Deployed.put processes pid body files now).2 = Deployed.Json p' →
       ∃ i q, Deployed.findIndex pid processes = Some i
              ∧ processes !! i = Some q
              ∧ Deployed.applyUpdate q pid body files now = Ok p'
              ∧ (Deployed.put processes pid body files now).1 !! i = Some p').
Proof.
  unfold Deployed.put.
  destruct (Deployed.findIndex pid processes) as [i|] eqn:Hi.
  - pose proof (proj1 (findIndex_Some _ _ _) Hi) as (q & Hq & Hid & Hlt).
    rewrite Hq.
    assert (Hnot : ¬ Forall (λ q, Process.id q ≠ pid) processes).
    { intros Hall. apply findIndex_None in Hall. congruence. }
    destruct (Deployed.applyUpdate q pid body files now) as [p'|e] eqn:Hp; simpl.
    + destruct (applyUpdate_id_attachments _ _ _ _ _ _ (or_introl Hp)) as [Hid' _].
      repeat split; try done.
      * rewrite list_fmap_insert, Hid'. apply list_insert_id.
        by rewrite list_lookup_fmap, Hq, <- Hid.
      * intros j y Hy Hne. rewrite list_lookup_insert_ne; [done|congruence].
      * intros ? [= <-]. exists i, q. repeat split; try done.
        apply list_lookup_insert_eq. by eapply lookup_lt_Some.
    + repeat split; done.
  - simpl. pose proof (proj1 (findIndex_None _ _) Hi) as Hall.
    repeat split; done.
Qed.

Set Warnings "-clear-no-such-hyp".

Lemma foldl_unlink disk files :
  foldl unlink disk files = disk ∖ list_to_set (Attachment.path <$> files).
Proof.
  revert disk. induction files as [|f files IH]; intros disk; simpl.
  - set_solver.
  - rewrite IH. unfold unlink. case_bool_decide; set_solver.
Qed.

Lemma filter_length_eq {A} (P : A → Prop) `{∀ x, Decision (P x)} (l : list A) :
  length l = length (filter P l) ↔ Forall P l.
Proof.
  induction l as [|x l IH]; [done|]. rewrite filter_cons.
  destruct (decide (P x)) as [Hx|Hx]; simpl.
  - rewrite Forall_cons. split.
    + intros [= Hl]. split; [done|]. by apply IH.
    + intros [_ Hl]. f_equal. by apply IH.
  - split.
    + intros Hl. pose proof (length_filter P l). lia.
    + by intros [? _]%Forall_cons.
Qed.

Lemma others_none pid processes :
  Forall (λ q, Process.id q ≠ pid) (others pid processes).
Proof.
  unfold others. apply Forall_forall. by intros q [? _]%list_elem_of_filter.
Qed.

Lemma others_all pid processes :
  Forall (λ q, Process.id q ≠ pid) processes → others pid processes = processes.
Proof.
  unfold others. induction 1 as [|q l Hq _ IH]; [done|].
  by rewrite filter_cons, decide_True, IH.
Qed.

Lemma deleteFrom_found processes disk pid i q :
  Deployed.findIndex pid processes = Some i →
  processes !! i = Some q →
  deleteFrom processes disk pid
  = (Some (others pid processes), disk ∖ pathsOf q, NoContent).
Proof.
  intros Hi Hq. unfold deleteFrom. rewrite find_findIndex, Hi. simpl. rewrite Hq.
  assert (Hnot : ¬ Forall (λ y, Process.id y ≠ pid) processes).
  { intros Hall. apply findIndex_None in Hall. congruence. }
  assert (Hlen : length processes ≠ length (others pid processes)).
  { intros Hl. apply Hnot. by apply filter_length_eq in Hl. }
  rewrite bool_decide_eq_false_2 by done.
  f_equal. f_equal. unfold unlinkAttachments, pathsOf.
  destruct (Process.attachments q) as [files|]; simpl.
  - apply foldl_unlink.
  - set_solver.
Qed.

(** X12. DELETE on the array.  When no process has the [id], nothing is written
    and nothing unlinked.  Otherwise every process with the [id] leaves the
    array, the others stay in their order, and the files unlinked are the
    attachments of the first process with the [id], no other. *)
Theorem delete_removes_every_match processes disk pid :
  (Forall (λ q, Process.id q ≠ pid) processes →
   deleteFrom processes disk pid = (None, disk, Missing ProcessoNaoEncontrado))
  ∧ (∀ i q, Deployed.findIndex pid processes = Some i →
       processes !! i = Some q →
       deleteFrom processes disk pid
       = (Some (others pid processes), disk ∖ pathsOf q, NoContent)
       ∧ Forall (λ y, Process.id y ≠ pid) (others pid processes)
       ∧ others pid processes `sublist_of` processes
       ∧ (∀ y, y ∈ processes → Process.id y ≠ pid → y ∈ others pid processes)
       ∧ (length (others pid processes) < length processes)%nat).
Proof.
  unfold deleteFrom. split.
  - intros Hall. rewrite find_findIndex.
    rewrite (proj2 (findIndex_None _ _) Hall). simpl.
    rewrite (others_all _ _ Hall). by rewrite bool_decide_eq_true_2.
  - intros i q Hi Hq. fold (deleteFrom processes disk pid).
    assert (Hnot : ¬ Forall (λ y, Process.id y ≠ pid) processes).
    { intros Hall. apply findIndex_None in Hall. congruence. }
    repeat split.
    + by eapply deleteFrom_found.
    + apply others_none.
    + apply sublist_filter.
    + intros y Hy Hne. unfold others. by apply list_elem_of_filter.
    + pose proof (length_filter (λ p, Process.id p ≠ pid) processes) as Hle.
      destruct (decide (length processes = length (others pid processes))) as [Hl|Hl].
      * exfalso. apply Hnot. by apply filter_length_eq in Hl.
      * unfold others in *. lia.
Qed.

(** After a DELETE that wrote the array, no process has the [id]: a second
    DELETE and a PUT find nothing. *)
Lemma deleteFrom_gone processes disk pid updated disk' r body files now :
  deleteFrom processes disk pid = (Some updated, disk', r) →
  r = NoContent
  ∧ Forall (λ q, Process.id q ≠ pid) updated
  ∧ deleteFrom updated disk' pid = (None, disk', Missing ProcessoNaoEncontrado)
  ∧ Deployed.put updated pid body files now = (updated, Deployed.NotFound).
Proof.
  unfold deleteFrom at 1. case_bool_decide; [done|]. intros [= <- _ <-].
  pose proof (others_none pid processes) as Hall.
  pose proof (proj2 (findIndex_None _ _) Hall) as Hnone.
  repeat split.
  - done.
  - unfold deleteFrom. rewrite find_findIndex, Hnone. simpl.
    rewrite (others_all _ _ Hall). by rewrite bool_decide_eq_true_2.
  - unfold Deployed.put. by rewrite Hnone.
Qed.

End StoreFacts.

(** ** The routes on the file *)

Section RouteFacts.
Context {rt : JSRuntime}.

(** X13. After a DELETE of part_000 that answered 204, the [id] is gone: GET
    lists no process with it; a second DELETE answers 404 and changes neither
    the file nor the upload directory; a PUT answers 404 and leaves the file
    as it is, while the files it uploaded stay in the upload directory. *)
Theorem deleted_id_is_gone data disk pid data' disk' body files now :
  serveDeployed (data, disk) (DeleteProcess pid) = (data', disk', NoContent) →
  (∃ listed, serveDeployed (data', disk') GetProcesses = (data', disk', Listed listed)
             ∧ Forall (λ q, Process.id q ≠ pid) listed)
  ∧ serveDeployed (data', disk') (DeleteProcess pid)
    = (data', disk', Missing ProcessoNaoEncontrado)
  ∧ serveDeployed (data', disk') (PutProcess pid body files now)
    = (data', disk' ∪ uploadsOf files, Missing ProcessoNaoEncontrado).
Proof.
  unfold serveDeployed, DeployedRoutes.delete, DeployedRoutes.put, DeployedRoutes.get.
  simpl. destruct data as [processes|o]; [|done].
  destruct (deleteFrom processes disk pid) as [[[updated|] d] r] eqn:Hdel.
  - intros [= <- <- Hr].
    destruct (deleteFrom_gone _ _ _ _ _ _ body files now Hdel) as (_ & Hall & Hagain & Hput).
    split; [by exists updated|].
    by rewrite Hagain, Hput.
  - intros [= <- <- Hr]. unfold deleteFrom in Hdel.
    case_bool_decide; [|done]. injection Hdel as _ <-. done.
Qed.

Lemma others_snoc_same pid processes p :
  Process.id p = pid → others pid (processes ++ [p]) = others pid processes.
Proof.
  intros Hp. unfold others. rewrite filter_app, filter_cons, decide_False.
  - by rewrite filter_nil, app_nil_r.
  - by intros ?.
Qed.

Lemma findIndex_snoc_found pid processes p i :
  Deployed.findIndex pid processes = Some i →
  Deployed.findIndex pid (processes ++ [p]) = Some i.
Proof.
  intros (q & Hq & Hid & Hlt)%findIndex_Some. apply findIndex_Some.
  pose proof (lookup_lt_Some _ _ _ Hq) as Hi.
  exists q. repeat split; [by rewrite lookup_app_l|done|].
  intros j y Hy Hj. apply (Hlt j y); [|done].
  rewrite lookup_app_l in Hy; [done|lia].
Qed.

Lemma findIndex_snoc_fresh pid processes p :
  Forall (λ q, Process.id q ≠ pid) processes → Process.id p = pid →
  Deployed.findIndex pid (processes ++ [p]) = Some (length processes).
Proof.
  intros Hall Hp. apply findIndex_Some. exists p. repeat split.
  - rewrite lookup_app_r by done. by rewrite Nat.sub_diag.
  - done.
  - intros j y Hy Hj. rewrite lookup_app_l in Hy by done.
    exact (proj1 (Forall_lookup _ _) Hall j y Hy).
Qed.

Lemma post_created processes body files now ms data' p :
  DeployedRoutes.post (DocArray processes) body files now ms = (data', Created p) →
  data' = DocArray (processes ++ [p])
  ∧ Process.id p = ms
  ∧ pathsOf p = list_to_set (Attachment.path <$> default [] files).
Proof.
  unfold DeployedRoutes.post.
  destruct (Deployed.createProcess body files now ms) as [p0|] eqn:Hc; [|done].
  intros [= <- <-].
  apply (λ H, createProcess_shape body files now ms p0 (or_introl H)) in Hc
    as (l & _ & _ & Hid & _ & Hat & _).
  unfold pathsOf. by rewrite Hat.
Qed.

(** X14. On part_000, when the clock in milliseconds is no [id] in the file, a
    DELETE of the process that a POST has just created gives the file back
    as it was before the POST, and unlinks the files uploaded with it. *)
Theorem post_then_delete processes body files now ms disk data' p :
  Forall (λ q, Process.id q ≠ ms) processes →
  DeployedRoutes.post (DocArray processes) body files now ms = (data', Created p) →
  DeployedRoutes.delete data' disk ms
  = (DocArray processes,
     disk ∖ list_to_set (Attachment.path <$> default [] files), NoContent).
Proof.
  intros Hall (-> & Hid & Hpaths)%post_created. unfold DeployedRoutes.delete.
  rewrite (deleteFrom_found _ disk ms (length processes) p).
  - by rewrite (others_snoc_same _ _ _ Hid), (others_all _ _ Hall), Hpaths.
  - by apply findIndex_snoc_fresh.
  - rewrite lookup_app_r by done. by rewrite Nat.sub_diag.
Qed.

(** X15. On part_000, when the clock in milliseconds is already the [id] of a
    stored process, the process that a POST creates is out of reach: a PUT
    with that [id] leaves it as created, and a DELETE removes it together
    with the older ones but unlinks only the files of the first of them. *)
Theorem id_collision processes body files now ms disk data' p i q :
  Deployed.findIndex ms processes = Some i → processes !! i = Some q →
  DeployedRoutes.post (DocArray processes) body files now ms = (data', Created p) →
  (∀ b f t, ∃ processes',
     (DeployedRoutes.put data' ms b f t).1 = DocArray processes'
     ∧ processes' !! length processes = Some p)
  ∧ DeployedRoutes.delete data' disk ms
    = (DocArray (others ms processes), disk ∖ pathsOf q, NoContent).
Proof.
  intros Hi Hq (-> & Hid & _)%post_created.
  pose proof (lookup_lt_Some _ _ _ Hq) as Hlt.
  pose proof (findIndex_snoc_found _ _ p _ Hi) as Hi'.
  split.
  - intros b f t.
    assert (Hp : (Deployed.put (processes ++ [p]) ms b f t).1 !! length processes
                 = Some p).
    { apply put_other_index.
      - rewrite lookup_app_r by done. by rewrite Nat.sub_diag.
      - rewrite Hi'. intros [= ->]. lia. }
    unfold DeployedRoutes.put.
    destruct (Deployed.put (processes ++ [p]) ms b f t) as [l' [p'| |e]] eqn:Hput;
      simpl in *; eexists; split; try done.
    + unfold Deployed.put in Hput. rewrite Hi' in Hput.
      destruct ((processes ++ [p]) !! i); [|by injection Hput as <-].
      destruct (Deployed.applyUpdate _ _ _ _ _); by injection Hput as <-.
    + unfold Deployed.put in Hput. rewrite Hi' in Hput.
      destruct ((processes ++ [p]) !! i); [|by injection Hput as <-].
      destruct (Deployed.applyUpdate _ _ _ _ _); by injection Hput as <-.
  - unfold DeployedRoutes.delete.
    rewrite (deleteFrom_found _ disk ms i q); [|done|by rewrite lookup_app_l].
    by rewrite (others_snoc_same _ _ _ Hid).
Qed.

Lemma serveServerJs_array items disk r :
  ∃ disk', (serveServerJs (DocArray items, disk) r).1 = (DocArray items, disk')
           ∧ disk ⊆ disk'.
Proof.
  destruct r as [|body files now ms|pid body files now|pid]; simpl.
  - by exists disk.
  - unfold ServerJsRoutes.post.
    destruct (ServerJs.createProcess body files now ms); simpl;
      eexists; (split; [done|set_solver]).
  - eexists; (split; [done|set_solver]).
  - by exists disk.
Qed.

Lemma serveDeployed_object o disk r :
  ∃ disk', (serveDeployed (DocObject o, disk) r).1 = (DocObject o, disk')
           ∧ disk ⊆ disk'.
Proof.
  destruct r as [|body files now ms|pid body files now|pid]; simpl.
  - by exists disk.
  - unfold DeployedRoutes.post.
    destruct (Deployed.createProcess body files now ms); simpl;
      eexists; (split; [done|set_solver]).
  - eexists; (split; [done|set_solver]).
  - by exists disk.
Qed.

(** X16. A file with an array at the root, as part_000 writes it, is lost on
    server.js: through any sequence of requests the file stays as it is and
    no upload is unlinked; the list of processes is empty, PUT and DELETE
    answer "Nenhum processo encontrado", and a POST answers 201 with a
    process that is never written.  The repair script leaves such a file
    alone too. *)
Theorem array_root_on_server_js items disk requests :
  (after serveServerJs (DocArray items, disk) requests).1 = DocArray items
  ∧ disk ⊆ (after serveServerJs (DocArray items, disk) requests).2
  ∧ (serveServerJs (DocArray items, disk) GetProcesses).2 = Listed []
  ∧ (∀ pid body files now,
       (serveServerJs (DocArray items, disk) (PutProcess pid body files now)).2
       = Missing NenhumProcessoEncontrado)
  ∧ (∀ pid, (serveServerJs (DocArray items, disk) (DeleteProcess pid)).2
            = Missing NenhumProcessoEncontrado)
  ∧ (∀ body files now ms p,
       ServerJs.createProcess body files now ms = Ok p →
       (serveServerJs (DocArray items, disk) (PostProcess body files now ms)).2
       = Created p)
  ∧ ajustarDocumento (DocArray items) = DocArray items.
Proof.
  assert (Hrun : ∀ d, (after serveServerJs (DocArray items, d) requests).1
                      = DocArray items
                      ∧ d ⊆ (after serveServerJs (DocArray items, d) requests).2).
  { unfold after. induction requests as [|r requests IH]; intros d; [done|].
    simpl. destruct (serveServerJs_array items d r) as (d' & -> & Hd).
    destruct (IH d') as [-> Hd']. split; [done|]. set_solver. }
  destruct (Hrun disk) as [Hdoc Hdisk]. repeat split; try done.
  intros body files now ms p Hp. simpl. unfold ServerJsRoutes.post. by rewrite Hp.
Qed.

(** X17. A file with an object at the root, as server.js writes it, stops
    part_000: through any sequence of requests the file stays as it is and
    no upload is unlinked; the list of processes is empty, and every POST,
    PUT and DELETE ends in an exception. *)
Theorem object_root_on_deployed o disk requests :
  (after serveDeployed (DocObject o, disk) requests).1 = DocObject o
  ∧ disk ⊆ (after serveDeployed (DocObject o, disk) requests).2
  ∧ (serveDeployed (DocObject o, disk) GetProcesses).2 = Listed []
  ∧ (∀ pid body files now,
       (serveDeployed (DocObject o, disk) (PutProcess pid body files now)).2
       = Raised TypeError)
  ∧ (∀ pid, (serveDeployed (DocObject o, disk) (DeleteProcess pid)).2
            = Raised TypeError)
  ∧ (∀ body files now ms,
       ∃ e, (serveDeployed (DocObject o, disk) (PostProcess body files now ms)).2
            = Raised e).
Proof.
  assert (Hrun : ∀ d, (after serveDeployed (DocObject o, d) requests).1
                      = DocObject o
                      ∧ d ⊆ (after serveDeployed (DocObject o, d) requests).2).
  { unfold after. induction requests as [|r requests IH]; intros d; [done|].
    simpl. destruct (serveDeployed_object o d r) as (d' & -> & Hd).
    destruct (IH d') as [-> Hd']. split; [done|]. set_solver. }
  destruct (Hrun disk) as [Hdoc Hdisk]. repeat split; try done.
  intros body files now ms. simpl. unfold DeployedRoutes.post.
  destruct (Deployed.createProcess body files now ms); eauto.
Qed.

(** X18. Each server keeps the shape of its own file: under part_000 an array at
    the root stays one, under server.js an object at the root stays one. *)
Theorem shape_is_kept requests disk :
  (∀ items, ∃ items',
     (after serveDeployed (DocArray items, disk) requests).1 = DocArray items')
  ∧ (∀ o, ∃ o',
       (after serveServerJs (DocObject o, disk) requests).1 = DocObject o').
Proof.
  split.
  - revert disk. unfold after.
    induction requests as [|r requests IH]; intros disk items; simpl.
    + by exists items.
    + assert (Hstep : ∃ items1 disk1,
                 (serveDeployed (DocArray items, disk) r).1 = (DocArray items1, disk1)).
      { destruct r as [|body files now ms|pid body files now|pid]; simpl.
        - by exists items, disk.
        - unfold DeployedRoutes.post.
          destruct (Deployed.createProcess body files now ms); simpl; eauto.
        - destruct (Deployed.put items pid body files now) as [l' [p'| |e]];
            simpl; eauto.
        - destruct (deleteFrom items disk pid) as [[[l'|] d'] rp]; simpl in *; eauto. }
      destruct Hstep as (items1 & disk1 & ->). apply IH.
  - revert disk. unfold after.
    induction requests as [|r requests IH]; intros disk o; simpl.
    + by exists o.
    + assert (Hstep : ∃ o1 disk1,
                 (serveServerJs (DocObject o, disk) r).1 = (DocObject o1, disk1)).
      { destruct r as [|body files now ms|pid body files now|pid]; simpl.
        - by exists o, disk.
        - unfold ServerJsRoutes.post.
          destruct (ServerJs.createProcess body files now ms); simpl; eauto.
        - unfold ServerJsRoutes.put. simpl. destruct o as [l|]; simpl; [|eauto].
          destruct (Deployed.findIndex pid l) as [i|]; simpl; [|eauto].
          destruct (l !! i); simpl; [|eauto].
          destruct (ServerJs.applyUpdate _ _ _ _ _); simpl; eauto.
        - unfold ServerJsRoutes.delete. simpl. destruct o as [l|]; simpl; [|eauto].
          destruct (deleteFrom l disk pid) as [[[l'|] d'] rp]; simpl in *; eauto. }
      destruct Hstep as (o1 & disk1 & ->). apply IH.
Qed.

End RouteFacts.

(** ** More on the repair script *)

Section MoreRepairFacts.
Context {rt : JSRuntime}.
Import Ajustar.

Lemma callback_not_anchored p : ¬ anchored p → callback p = Throw RangeError.
Proof.
  intros Hn. unfold callback.
  destruct (guard p) as [[cd h]|] eqn:Hg.
  - destruct (dataContratacaoISO cd) as [iso|] eqn:Hd; [|done].
    exfalso. apply Hn. intros cd' h' Hg'. rewrite Hg in Hg'.
    injection Hg' as <- <-. eauto.
  - exfalso. apply Hn. intros cd h Hg'. congruence.
Qed.

Lemma forEach_stops visited n good bad rest :
  Forall anchored good → ¬ anchored bad →
  forEach visited n (good ++ bad :: rest)
  = Threw RangeError (visited ++ (repaired <$> good) ++ bad :: rest).
Proof.
  intros Hgood Hbad. revert visited n.
  induction Hgood as [|p good Hp _ IH]; intros visited n; simpl.
  - by rewrite (callback_not_anchored _ Hbad).
  - rewrite (callback_anchored _ Hp), IH, <- app_assoc. done.
Qed.

(** X19. The loop stops at the first process whose contract date cannot be
    anchored, with a [RangeError]: the processes before it are corrected in
    memory, that one and the ones after it are as they were, and the script
    writes nothing. *)
Theorem repair_stops_at_first_bad_date good bad rest :
  Forall anchored good → ¬ anchored bad →
  repairContractDates (good ++ bad :: rest)
  = Threw RangeError ((repaired <$> good) ++ bad :: rest)
  ∧ ajustarDatasDeContratacao (good ++ bad :: rest) = good ++ bad :: rest.
Proof.
  intros Hgood Hbad. unfold ajustarDatasDeContratacao, repairContractDates.
  by rewrite (forEach_stops [] 0 _ _ _ Hgood Hbad).
Qed.

(** X20. The script writes all or nothing: either the file is left as it was,
    or every contract date could be anchored, at least one process
    qualified, and every process of the file is written as the pass makes
    it.  It never writes a file that has no [processes] array. *)
Theorem repair_all_or_nothing data :
  ajustarDocumento data = data
  ∨ ∃ file, data = DocObject (Some file)
            ∧ Forall anchored file ∧ Exists qualifies file
            ∧ ajustarDocumento data = DocObject (Some (repaired <$> file)).
Proof.
  destruct data as [items|[file|]]; [by left| |by left]. simpl.
  case_bool_decide as Hlen; [by left|].
  unfold ajustarDatasDeContratacao.
  destruct (repairContractDates file) as [out n|e out] eqn:Hr; [|by left].
  case_bool_decide as Hn; [|by left]. right. exists file.
  unfold repairContractDates in Hr.
  pose proof (forEach_Returned _ _ _ _ _ Hr) as Ha.
  rewrite (forEach_anchored _ _ _ Ha) in Hr. injection Hr as <- <-.
  repeat split; [done|].
  apply Exists_exists.
  destruct (filter qualifies file) as [|q l] eqn:Hf; [simpl in Hn; lia|].
  exists q. assert (Hq : q ∈ filter qualifies file) by (rewrite Hf; left).
  by apply list_elem_of_filter in Hq as [? ?].
Qed.

End MoreRepairFacts.

(** ** Witnesses of the further properties *)

Lemma created_is_well_formed_witness :
  ∃ p, Deployed.createProcess draft None "2024-01-01T00:00:00.000Z" 1704067200000
       = Ok p
       ∧ wellFormed p = true ∧ openEnded p = true.
Proof.
  eexists. split; [reflexivity|].
  destruct (created_is_well_formed draft None "2024-01-01T00:00:00.000Z"
              1704067200000 _ (or_introl eq_refl)) as (Hw & Ho & _).
  split; [exact Hw | exact Ho].
Defined.

Lemma open_interval_from_creation_witness :
  ∃ p, Deployed.createProcess draft None "2024-01-01T00:00:00.000Z" 1704067200000
       = Ok p
       ∧ Forall (λ q, oneOpenLast HistoryEntry.endDate (historyOf q)
                      ∧ oneOpenLast LocationEntry.endDate (locationHistoryOf q))
           (states p
              [Call.mk 1704067200000 (novaFase "Review" true) None
                       "2024-01-02T00:00:00.000Z";
               Call.mk 1704067200000 (novaLocation "B" "Y" true) None
                       "2024-01-03T00:00:00.000Z"]).
Proof.
  eexists. split; [reflexivity|].
  eapply (open_interval_from_creation draft None "2024-01-01T00:00:00.000Z"
            1704067200000); [reflexivity|].
  repeat constructor.
Defined.

Lemma created_never_type_error_witness :
  ∃ p, Deployed.createProcess draft None "2024-01-01T00:00:00.000Z" 1704067200000
       = Ok p
       ∧ Deployed.applyUpdate p 1704067200000
           (Body.mk None None (Some (LocText "{sector")) None None None None
                    (Some (FlagBool true)) None None None ∅)
           None "2024-01-02T00:00:00.000Z" = Throw SyntaxError.
Proof.
  eexists. split; [reflexivity|].
  destruct (Deployed.applyUpdate _ 1704067200000
              (Body.mk None None (Some (LocText "{sector")) None None None None
                       (Some (FlagBool true)) None None None ∅)
              None "2024-01-02T00:00:00.000Z") as [p'|e] eqn:He;
    [by vm_compute in He|].
  f_equal.
  refine (proj1 (created_never_type_error draft None "2024-01-01T00:00:00.000Z"
                   1704067200000 _ [] _ _ _ _ _ e eq_refl _ _ He)).
  - constructor.
  - simpl. apply list_elem_of_singleton. reflexivity.
Defined.

Lemma update_keeps_data_model_witness :
  ∃ p', AnyJSON.deployed_applyUpdate contratado 1
          (locationText (serialized "B" "Y") true) None
          "2024-04-01T10:00:00.000Z" = Ok p'
        ∧ wellFormed p' = true ∧ openEnded p' = true.
Proof.
  eexists. split; [reflexivity|].
  apply (update_keeps_data_model contratado 1
           (locationText (serialized "B" "Y") true) None
           "2024-04-01T10:00:00.000Z"); try reflexivity.
  - split; reflexivity.
  - discriminate.
  - intros s v [= <-] Hs. vm_compute in Hs. injection Hs as <-. eauto.
Defined.

Lemma flag_off_breaks_invariant_1_witness :
  ∃ p', Deployed.applyUpdate contratado 1 (novaFase "Encerrado" false) None
                             "2024-04-01T10:00:00.000Z" = Ok p'
        ∧ Process.fase p' = Some "Encerrado"
        ∧ historyOf p' = historyOf contratado
        ∧ wellFormed p' = false.
Proof.
  eexists. split; [reflexivity|].
  apply (flag_off_breaks_invariant_1 contratado 1 (novaFase "Encerrado" false) None
           "2024-04-01T10:00:00.000Z"); try reflexivity.
  - split; reflexivity.
  - by eexists.
  - discriminate.
Defined.

Lemma histories_change_iff_witness :
  ∃ p', AnyJSON.deployed_applyUpdate contratado 1 (locationText "123" true) None
          "2024-04-01T10:00:00.000Z" = Ok p'
        ∧ locationHistoryOf p' ≠ locationHistoryOf contratado.
Proof.
  eexists. split; [reflexivity|].
  assert (Hd : AnyJSON.decodeLocation (Body.location (locationText "123" true))
               = Ok (Some (AnyJSON.Primitive true))) by reflexivity.
  apply (proj2 (histories_change_iff contratado 1 (locationText "123" true) None
                  "2024-04-01T10:00:00.000Z" _
                  (Some (AnyJSON.Primitive true))
                  (conj eq_refl eq_refl) Hd eq_refl)).
  split; [reflexivity|].
  exists (Location.mk None None),
         (LocationEntry.mk (Some "A") (Some "X") "2024-03-01T09:00:00.000Z" None).
  split; [by right|]. split; [reflexivity|]. left. discriminate.
Defined.

(** The text [null] with the flag on: the call returns, tracks nothing,
    and stores [null] as the location; on server.js the next PUT that
    brings a location then throws. *)
Example null_location_is_stored :
  ∃ p', AnyJSON.deployed_applyUpdate contratado 1 (locationText "null" true) None
          "2024-04-01T10:00:00.000Z" = Ok p'
        ∧ AnyJSON.server_js_applyUpdate contratado 1 (locationText "null" true) None
            "2024-04-01T10:00:00.000Z" = Ok p'
        ∧ Process.location p' = None
        ∧ locationHistoryOf p' = locationHistoryOf contratado
        ∧ wellFormed p' = false
        ∧ AnyJSON.server_js_applyUpdate p' 1 (novaLocation "B" "Y" true) None
            "2024-04-02T10:00:00.000Z" = Throw TypeError.
Proof. eexists. repeat split; reflexivity. Qed.

(** The text [0] on a record without location history: nothing is read of
    the missing last entry, and nothing thrown. *)
Example falsy_location_does_not_throw :
  ∃ p', AnyJSON.deployed_applyUpdate legado 7 (locationText "0" true) None
          "2024-04-01T10:00:00.000Z" = Ok p'
        ∧ locationHistoryOf p' = []
        ∧ AnyJSON.deployed_applyUpdate legado 7 (locationText "123" true) None
            "2024-04-01T10:00:00.000Z" = Throw TypeError.
Proof. eexists. repeat split; reflexivity. Qed.

Lemma attachments_append_only_witness :
  ∃ after, states contratado
             [Call.mk 1 noBody (Some [Attachment.mk "2-b.pdf" "b.pdf" "uploads/2-b.pdf"])
                      "2024-04-01T10:00:00.000Z"] !! 1%nat = Some after
           ∧ default [] (Process.attachments contratado)
               `prefix_of` default [] (Process.attachments after).
Proof.
  eexists. split; [reflexivity|].
  refine (proj1 (attachments_append_only contratado
                   [Call.mk 1 noBody
                            (Some [Attachment.mk "2-b.pdf" "b.pdf" "uploads/2-b.pdf"])
                            "2024-04-01T10:00:00.000Z"]
                   0 _ contratado _ eq_refl eq_refl eq_refl)).
Defined.

Lemma servers_agree_when_flag_on_witness :
  ∃ p2, ServerJs.applyUpdate contratado 1 (novaLocation "B" "Y" true) None
                             "2024-04-01T10:00:00.000Z" = Ok p2
        ∧ length (locationHistoryOf p2) = 2%nat.
Proof.
  destruct (servers_agree_when_flag_on contratado 1 (novaLocation "B" "Y" true) None
              "2024-04-01T10:00:00.000Z" _
              (LocationEntry.mk (Some "A") (Some "X") "2024-03-01T09:00:00.000Z" None)
              eq_refl eq_refl eq_refl eq_refl) as (p2 & Hp & _ & Hl & _).
  exists p2. split; [exact Hp|]. rewrite Hl. reflexivity.
Defined.

Lemma deleted_id_is_gone_witness :
  serveDeployed (DocArray [encerrado], ∅) (DeleteProcess 3) = (DocArray [], ∅, NoContent)
  ∧ serveDeployed (DocArray [], ∅)
      (PutProcess 3 noBody (Some [Attachment.mk "2-b.pdf" "b.pdf" "uploads/2-b.pdf"])
                  "2024-04-01T10:00:00.000Z")
    = (DocArray [],
       ∅ ∪ uploadsOf (Some [Attachment.mk "2-b.pdf" "b.pdf" "uploads/2-b.pdf"]),
       Missing ProcessoNaoEncontrado).
Proof.
  assert (H1 : serveDeployed (DocArray [encerrado], ∅) (DeleteProcess 3)
               = (DocArray [], ∅, NoContent)) by by vm_compute.
  split; [exact H1|].
  exact (proj2 (proj2 (deleted_id_is_gone (DocArray [encerrado]) ∅ 3 (DocArray []) ∅
                         noBody (Some [Attachment.mk "2-b.pdf" "b.pdf" "uploads/2-b.pdf"])
                         "2024-04-01T10:00:00.000Z" H1))).
Defined.

Lemma post_then_delete_witness :
  ∃ data', (DeployedRoutes.post (DocArray [contratado]) draft None
              "2024-01-01T00:00:00.000Z" 1704067200000).1 = data'
           ∧ DeployedRoutes.delete data' ∅ 1704067200000
             = (DocArray [contratado], ∅ ∖ list_to_set [], NoContent).
Proof.
  eexists. split; [reflexivity|].
  eapply (post_then_delete [contratado] draft None "2024-01-01T00:00:00.000Z"
            1704067200000 ∅).
  - repeat constructor. discriminate.
  - reflexivity.
Defined.

Lemma id_collision_witness :
  ∃ data', (DeployedRoutes.post (DocArray [contratado]) draft None
              "2024-01-01T00:00:00.000Z" 1).1 = data'
           ∧ DeployedRoutes.delete data' ∅ 1
             = (DocArray (others 1 [contratado]), ∅ ∖ pathsOf contratado, NoContent).
Proof.
  eexists. split; [reflexivity|].
  refine (proj2 (id_collision [contratado] draft None "2024-01-01T00:00:00.000Z"
                   1 ∅ _ _ 0 contratado _ _ _)); reflexivity.
Defined.

Lemma repair_stops_at_first_bad_date_witness :
  Ajustar.repairContractDates ([contratado] ++ semData :: [contratado])
  = Ajustar.Threw RangeError ((repaired <$> [contratado]) ++ semData :: [contratado]).
Proof.
  refine (proj1 (repair_stops_at_first_bad_date [contratado] semData [contratado] _ _)).
  - constructor; [|constructor]. intros cd h Hg. vm_compute in Hg.
    injection Hg as <- <-. vm_compute. eauto.
  - intros Ha. destruct (Ha "15/03/2024" _ eq_refl) as [c Hc]. by vm_compute in Hc.
Defined.
